(** * purchasing-agent: the product repository, the product form controller
      and the list view, embedded from the TypeScript sources.

    - [services/apiProducts.ts]: [createProducts], [updateProduct],
      [getProducts], [getProduct], [uploadProductImage], [deleteProduct];
    - [hooks/useProductForm.ts]: [handleSubmit], [handleImageSelect],
      [removeImage];
    - [routes/products/index.tsx]: [filteredProducts].

    Strings are sequences of code units, written as UTF-8 text: equality,
    prefix and substring tests are those of JavaScript, and the order [<]
    is JavaScript's on text without characters beyond U+FFFF. Numbers are
    only stored and forwarded by this code (never computed on), so they are
    carried as rationals. *)

From Stdlib Require Import ZArith QArith Lia Ascii String Sorted OrdersEx.
From stdpp Require Import base option list strings.

Local Open Scope string_scope.
Local Open Scope list_scope.
Local Open Scope Z_scope.

(** ** JavaScript string primitives used by the sources *)

Module Js.

(** [s.startsWith(p)] *)
Fixpoint startsWith (p s : string) : bool :=
  match p, s with
  | EmptyString, _ => true
  | String a p', String b s' => if Ascii.eqb a b then startsWith p' s' else false
  | String _ _, EmptyString => false
  end.

(** [s.includes(p)]: [p] occurs in [s] at some offset. *)
Fixpoint includes (p s : string) : bool :=
  startsWith p s ||
  match s with
  | EmptyString => false
  | String _ s' => includes p s'
  end.

(** What is left of [s] after the literal [p], when [s] starts with [p]. *)
Fixpoint afterPrefix (p s : string) : option string :=
  match p, s with
  | EmptyString, _ => Some s
  | String a p', String b s' => if Ascii.eqb a b then afterPrefix p' s' else None
  | String _ _, EmptyString => None
  end.

(** The relational operator [<] on two strings: lexicographic on code
    units. *)
Definition ltb (s t : string) : bool := String.ltb s t.

(** Truthiness of a string: only the empty string is falsy. *)
Definition truthy (s : string) : bool :=
  match s with EmptyString => false | String _ _ => true end.

(** The line terminators that [.] of a regular expression refuses:
    LF, CR, U+2028 and U+2029 (the last two as their UTF-8 bytes). *)
Definition LF : string := String (Ascii.ascii_of_N 10) EmptyString.
Definition CR : string := String (Ascii.ascii_of_N 13) EmptyString.
Definition LS : string :=
  String (Ascii.ascii_of_N 226) (String (Ascii.ascii_of_N 128)
    (String (Ascii.ascii_of_N 168) EmptyString)).
Definition PS : string :=
  String (Ascii.ascii_of_N 226) (String (Ascii.ascii_of_N 128)
    (String (Ascii.ascii_of_N 169) EmptyString)).

Definition hasLineTerminator (s : string) : bool :=
  includes LF s || includes CR s || includes LS s || includes PS s.

(** [arr.indexOf(x)] on an array of strings: the first position holding
    [x], or [-1]. *)
Fixpoint indexOf_from (x : string) (l : list string) (i : Z) : Z :=
  match l with
  | [] => -1
  | y :: l' => if String.eqb y x then i else indexOf_from x l' (i + 1)
  end.
Definition indexOf (x : string) (l : list string) : Z := indexOf_from x l 0.

(** [arr[i]] for a number [i]: [undefined] outside [0 .. length-1]. *)
Definition at_index {A} (l : list A) (i : Z) : option A :=
  if i <? 0 then None else l !! Z.to_nat i.

(** [arr.filter((x, i) => f(x, i))]: the callback also sees the index. *)
Fixpoint filter_from {A} (f : A -> Z -> bool) (l : list A) (i : Z) : list A :=
  match l with
  | [] => []
  | x :: l' =>
      if f x i then x :: filter_from f l' (i + 1) else filter_from f l' (i + 1)
  end.
Definition filteri {A} (f : A -> Z -> bool) (l : list A) : list A :=
  filter_from f l 0.

End Js.

(** ** Data model ([types/products.ts]) *)

Definition number := Q.

Record ProductVariant := mkVariant {
  variant_id : option string;      (* id?: string *)
  variant_name : string;
  variant_stock : number;
  variant_price : number
}.

Record ProductFormData := mkFormData {
  productName : string;
  productDescription : string;
  productTags : string;
  productImages : list string;
  inventoryNumber : string;
  inventoryQuantity : number;
  exchangeRate : number;
  costPrice : number;
  productPrice : number;
  variants : option (list ProductVariant)   (* variants?: ProductVariant[] *)
}.

(** [interface Product extends ProductFormData] *)
Record Product := mkProduct {
  fields :> ProductFormData;
  id : string;
  created_at : string;
  updated_at : string
}.

(** A browser [File]: only its name is ever read by this code. *)
Record File := mkFile {
  file_name : string;
  file_bytes : string
}.

(** ** The Remote Data Store, seen from the client

    Every call of the supabase client answers with a response object: a
    query ending in [.single()] or [.select()] carries [data] on success and
    [error] on failure; a bare [insert], [delete] or storage call carries
    only [error]. The store is an external collaborator: its answers are
    taken as given, one per request, and every request is recorded. No
    repository function sends the same request twice within one call, so
    an answer that depends on the request alone loses nothing there. *)

Record PostgrestError := mkPgError {
  pg_message : string;
  pg_code : string
}.

Record StorageError := mkStError {
  st_message : string
}.

(** [{ data, error }] *)
Inductive Response (A : Type) : Type :=
| Success (data : A)
| Failure (error : PostgrestError).
Arguments Success {A} data.
Arguments Failure {A} error.

(** A row handed to [from("variants").insert(...)]. [row_id] is the [id]
    key of the object, absent when [None]. *)
Record VariantRow := mkRow {
  row_id : option string;
  row_name : string;
  row_stock : number;
  row_price : number;
  row_product_id : string
}.

Inductive Request : Type :=
| ProductsInsert (productData : ProductFormData)
| ProductsUpdate (productFields : ProductFormData) (id_eq : string)
| ProductsSelectAll
| ProductsSelectWithVariants (id_eq : string)
| ProductsSelectImages (id_eq : string)
| ProductsDelete (id_eq : string)
| VariantsDelete (product_id_eq : string)
| VariantsInsert (rows : list VariantRow)
| StorageUpload (filePath : string) (file : File)
| StorageGetPublicUrl (filePath : string)
| StorageRemove (filePaths : list string).

Record Supabase := mkSupabase {
  on_products_insert : ProductFormData -> Response Product;
  on_products_update : ProductFormData -> string -> Response Product;
  on_products_select_all : Response (list Product);
  on_products_select_with_variants : string -> Response Product;
  (* [select("productImages")]: the column may be null *)
  on_products_select_images : string -> Response (option (list string));
  on_products_delete : string -> option PostgrestError;
  on_variants_delete : string -> option PostgrestError;
  on_variants_insert : list VariantRow -> option PostgrestError;
  on_storage_upload : string -> File -> option StorageError;
  on_storage_public_url : string -> option string;
  on_storage_remove : list string -> option StorageError;
  (* the stem [`${Date.now()}-${Math.random().toString(36).substring(2)}`]
     drawn for an upload *)
  fresh_stem : File -> string
}.

(** ** Effects: requests, console, toasts, and React state setters *)

Inductive Event : Type :=
| Call (r : Request)
| ConsoleError (label : string)
| ConsoleLog (label : string)
| ToastError (msg : string)
| ToastWarning (msg : string)
| ToastSuccess (msg : string)
| InvalidateQueries (queryKey : list string)
| Navigate (to : string)
| SetPendingFiles (files : list File)
| SetIsUploading (b : bool).

Inductive Exn : Type :=
| PostgrestExn (e : PostgrestError)
| StorageExn (e : StorageError)
| ErrorExn (message : string).       (* new Error(message) *)

Inductive Outcome (A : Type) : Type :=
| Returned (a : A)
| Thrown (e : Exn).
Arguments Returned {A} a.
Arguments Thrown {A} e.

(** An async function: given the store's answers it settles with a value or
    a thrown exception, having performed a sequence of effects. *)
Definition Async (A : Type) : Type := Supabase -> Outcome A * list Event.

Definition ret {A} (a : A) : Async A := fun _ => (Returned a, []).

Definition throw {A} (e : Exn) : Async A := fun _ => (Thrown e, []).

Definition bind {A B} (m : Async A) (k : A -> Async B) : Async B :=
  fun db =>
    match m db with
    | (Returned a, t) => let (r, t') := k a db in (r, t ++ t')
    | (Thrown e, t) => (Thrown e, t)
    end.

Definition emit (ev : Event) : Async unit := fun _ => (Returned tt, [ev]).

(** [try { m } catch (e) { h e }] *)
Definition try_catch {A} (m : Async A) (h : Exn -> Async A) : Async A :=
  fun db =>
    match m db with
    | (Returned a, t) => (Returned a, t)
    | (Thrown e, t) => let (r, t') := h e db in (r, t ++ t')
    end.

(** A request: record it, answer with what the store says. *)
Definition request {A} (r : Request) (answer : Supabase -> A) : Async A :=
  fun db => (Returned (answer db), [Call r]).

Declare Scope async_scope.
Delimit Scope async_scope with async.
Notation "x <- m ;; k" := (bind m (fun x => k))
  (at level 100, m at next level, right associativity) : async_scope.
Notation "m ;;; k" := (bind m (fun _ => k))
  (at level 100, right associativity) : async_scope.
Local Open Scope async_scope.

Definition outcome {A} (m : Async A) (db : Supabase) : Outcome A := fst (m db).
Definition events {A} (m : Async A) (db : Supabase) : list Event := snd (m db).

(** The requests among the effects, in order. *)
Definition calls_of (t : list Event) : list Request :=
  omap (fun ev => match ev with Call r => Some r | _ => None end) t.
Definition calls {A} (m : Async A) (db : Supabase) : list Request :=
  calls_of (events m db).

(** ** Product repository ([services/apiProducts.ts]) *)

(** [const { variants, ...productFields } = productData] *)
Definition rest_without_variants (d : ProductFormData) : ProductFormData :=
  mkFormData (productName d) (productDescription d) (productTags d)
    (productImages d) (inventoryNumber d) (inventoryQuantity d)
    (exchangeRate d) (costPrice d) (productPrice d) None.

(** [{ ...v, product_id }] *)
Definition with_product_id (product_id : string) (v : ProductVariant) : VariantRow :=
  mkRow (variant_id v) (variant_name v) (variant_stock v) (variant_price v) product_id.

(** [{ product_id: id, name: variant.name, stock: variant.stock, price: variant.price }] *)
Definition variant_to_insert (id : string) (variant : ProductVariant) : VariantRow :=
  mkRow None (variant_name variant) (variant_stock variant) (variant_price variant) id.

Definition is_empty {A} (l : list A) : bool :=
  match l with [] => true | _ => false end.

Definition createProducts (productData : ProductFormData)
    (variants : list ProductVariant) : Async Product :=
  r <- request (ProductsInsert productData)
               (fun db => on_products_insert db productData) ;;
  match r with
  | Failure productError => throw (PostgrestExn productError)
  | Success product =>
      (if is_empty variants then ret tt
       else
         let variantsWithProductId := map (with_product_id (id product)) variants in
         e <- request (VariantsInsert variantsWithProductId)
                      (fun db => on_variants_insert db variantsWithProductId) ;;
         match e with
         | Some variantsError => throw (PostgrestExn variantsError)
         | None => ret tt
         end) ;;;
      ret product
  end.

Definition updateProduct (id : string) (productData : ProductFormData)
    : Async Product :=
  try_catch
    (let variants := variants productData in
     let productFields := rest_without_variants productData in
     r <- request (ProductsUpdate productFields id)
                  (fun db => on_products_update db productFields id) ;;
     match r with
     | Failure productError =>
         emit (ConsoleError "更新商品失敗:") ;;;
         emit (ToastError "更新商品失敗") ;;;
         throw (PostgrestExn productError)
     | Success updatedProduct =>
         match variants with
         | None => ret tt                      (* if (variants) *)
         | Some variants =>
             d <- request (VariantsDelete id)
                          (fun db => on_variants_delete db id) ;;
             match d with
             | Some deleteError =>
                 emit (ConsoleError "刪除舊變體失敗:") ;;;
                 emit (ToastError "更新變體失敗") ;;;
                 throw (PostgrestExn deleteError)
             | None =>
                 if is_empty variants then ret tt
                 else
                   let variantsToInsert := map (variant_to_insert id) variants in
                   i <- request (VariantsInsert variantsToInsert)
                                (fun db => on_variants_insert db variantsToInsert) ;;
                   match i with
                   | Some insertError =>
                       emit (ConsoleError "插入新變體失敗:") ;;;
                       emit (ToastError "更新變體失敗") ;;;
                       throw (PostgrestExn insertError)
                   | None => ret tt
                   end
             end
         end ;;;
         ret updatedProduct
     end)
    (fun error =>
       emit (ConsoleError "更新商品過程發生錯誤:") ;;;
       throw error).

(** Returns [data], which is [null] when the query failed. *)
Definition getProducts : Async (option (list Product)) :=
  r <- request ProductsSelectAll (fun db => on_products_select_all db) ;;
  match r with
  | Failure error => emit (ConsoleError "獲取商品失敗:") ;;; ret None
  | Success data => ret (Some data)
  end.

Definition getProduct (productId : string) : Async (option Product) :=
  r <- request (ProductsSelectWithVariants productId)
               (fun db => on_products_select_with_variants db productId) ;;
  match r with
  | Failure error => emit (ConsoleError "獲取商品失敗:") ;;; ret None
  | Success data => ret (Some data)
  end.

(** [name.split(".").pop()]: what follows the last dot, the whole name when
    there is none. *)
Fixpoint last_segment (acc s : string) : string :=
  match s with
  | EmptyString => acc
  | String c s' =>
      if Ascii.eqb c "."%char then last_segment EmptyString s'
      else last_segment (acc +:+ String c EmptyString) s'
  end.

Definition uploadProductImage (file : File) : Async string :=
  try_catch
    (let fileExt := last_segment EmptyString (file_name file) in
     fun db =>
       (let fileName := fresh_stem db file +:+ "." +:+ fileExt in
        let filePath := "products/" +:+ fileName in
        e <- request (StorageUpload filePath file)
                     (fun db => on_storage_upload db filePath file) ;;
        match e with
        | Some uploadError => throw (StorageExn uploadError)
        | None =>
            u <- request (StorageGetPublicUrl filePath)
                         (fun db => on_storage_public_url db filePath) ;;
            match u with
            | Some publicUrl =>
                if Js.truthy publicUrl then
                  emit (ConsoleLog "上傳成功:") ;;; ret publicUrl
                else throw (ErrorExn "無法取得圖片 URL")
            | None => throw (ErrorExn "無法取得圖片 URL")
            end
        end) db)
    (fun error =>
       emit (ConsoleError "圖片上傳失敗:") ;;;
       emit (ToastError "圖片上傳失敗，請重試") ;;;
       throw error).

(** [url.match(/productImage\/(.+)$/)], first capture group: the leftmost
    offset where the literal [productImage/] is followed, up to the end of
    the string, by at least one character and no line terminator. *)
Fixpoint match_bucket_key (url : string) : option string :=
  let here :=
    match Js.afterPrefix "productImage/" url with
    | Some rest =>
        if Js.truthy rest && negb (Js.hasLineTerminator rest) then Some rest
        else None
    | None => None
    end in
  match here with
  | Some key => Some key
  | None =>
      match url with
      | EmptyString => None
      | String _ url' => match_bucket_key url'
      end
  end.

(** [productImages.map(url => match ? match[1] : null).filter(Boolean)] *)
Definition filePaths_of (productImages : list string) : list string :=
  omap (fun m => match m with
                 | Some key => if Js.truthy key then Some key else None
                 | None => None
                 end)
       (map match_bucket_key productImages).

Record DeleteResult := mkDeleteResult { success : bool }.

Definition deleteProduct (productId : string) : Async DeleteResult :=
  try_catch
    (r <- request (ProductsSelectImages productId)
                  (fun db => on_products_select_images db productId) ;;
     match r with
     | Failure fetchError =>
         emit (ConsoleError "獲取商品資料失敗:") ;;;
         throw (ErrorExn (pg_message fetchError))
     | Success product =>
         d <- request (ProductsDelete productId)
                      (fun db => on_products_delete db productId) ;;
         match d with
         | Some deleteError =>
             emit (ConsoleError "刪除商品失敗:") ;;;
             throw (ErrorExn (pg_message deleteError))
         | None =>
             match product with
             | Some productImages =>
                 if is_empty productImages then ret tt
                 else
                   let filePaths := filePaths_of productImages in
                   emit (ConsoleLog "準備刪除的圖片路徑:") ;;;
                   if is_empty filePaths then ret tt
                   else
                     s <- request (StorageRemove filePaths)
                                  (fun db => on_storage_remove db filePaths) ;;
                     match s with
                     | Some storageError =>
                         emit (ConsoleError "刪除圖片失敗:") ;;;
                         emit (ToastWarning "商品已刪除，但部分圖片刪除失敗")
                     | None => emit (ConsoleLog "圖片刪除成功")
                     end
             | None => ret tt
             end ;;;
             ret (mkDeleteResult true)
         end
     end)
    (fun error =>
       emit (ConsoleError "刪除商品過程發生錯誤:") ;;;
       throw error).

(** ** Product form controller ([hooks/useProductForm.ts]) *)

Inductive Mode := create | edit.

Record UseProductFormOptions := mkOptions {
  mode : Mode;
  productId : option string
}.

(** The controller's state: the form values, the files waiting for upload,
    the upload flag, and the preview references released so far
    ([URL.revokeObjectURL]). *)
Record FormState := mkForm {
  values : ProductFormData;
  pendingFiles : list File;
  isUploading : bool;
  revoked : list string
}.

Definition set_productImages (imgs : list string) (d : ProductFormData)
    : ProductFormData :=
  mkFormData (productName d) (productDescription d) (productTags d)
    imgs (inventoryNumber d) (inventoryQuantity d)
    (exchangeRate d) (costPrice d) (productPrice d) (variants d).

Definition set_variants (vs : option (list ProductVariant)) (d : ProductFormData)
    : ProductFormData :=
  mkFormData (productName d) (productDescription d) (productTags d)
    (productImages d) (inventoryNumber d) (inventoryQuantity d)
    (exchangeRate d) (costPrice d) (productPrice d) vs.

(** [form.getValues("productImages") || []] *)
Definition currentImages (st : FormState) : list string :=
  productImages (values st).

(** [form.setValue("productImages", imgs)] *)
Definition setValue_productImages (imgs : list string) (st : FormState) : FormState :=
  mkForm (set_productImages imgs (values st)) (pendingFiles st)
         (isUploading st) (revoked st).

Definition setPendingFiles (files : list File) (st : FormState) : FormState :=
  mkForm (values st) files (isUploading st) (revoked st).

Definition setIsUploading (b : bool) (st : FormState) : FormState :=
  mkForm (values st) (pendingFiles st) b (revoked st).

Definition revokeObjectURL (url : string) (st : FormState) : FormState :=
  mkForm (values st) (pendingFiles st) (isUploading st) (revoked st ++ [url]).

Definition isBlob (img : string) : bool := Js.startsWith "blob:" img.

(** [img.includes("supabase.co")] *)
Definition isPersisted (img : string) : bool := Js.includes "supabase.co" img.

(** [arr.filter((_, i) => i !== index)] *)
Definition without_index {A} (index : Z) (l : list A) : list A :=
  Js.filteri (fun _ i => negb (i =? index)) l.

Definition removeImage (index : Z) (st : FormState) : FormState :=
  let currentImages := currentImages st in
  let imageToRemove := Js.at_index currentImages index in
  let st :=
    match imageToRemove with
    | Some imageToRemove =>
        if isBlob imageToRemove then
          let blobUrls := List.filter isBlob currentImages in
          let blobIndex := Js.indexOf imageToRemove blobUrls in
          let st :=
            if negb (blobIndex =? -1)
            then setPendingFiles (without_index blobIndex (pendingFiles st)) st
            else st in
          revokeObjectURL imageToRemove st
        else st
    | None => st                       (* imageToRemove?.startsWith *)
    end in
  let newImages := without_index index currentImages in
  setValue_productImages newImages st.

(** [createObjectURL] is the browser's: it hands out a preview reference
    for each file. [files] is [None] for a null [FileList]. *)
Definition handleImageSelect (createObjectURL : File -> string)
    (files : option (list File)) (st : FormState) : FormState :=
  match files with
  | None => st
  | Some newFiles =>
      if is_empty newFiles then st
      else
        let st := setPendingFiles (pendingFiles st ++ newFiles) st in
        let previewUrls := map createObjectURL newFiles in
        setValue_productImages (currentImages st ++ previewUrls) st
  end.

(** [Promise.all(ps)]: every promise has been started by the time the first
    one settles, so all of them perform their effects; the join fulfils with
    all the values in order, or rejects. The effects of the uploads are
    listed promise by promise; when several reject, the one kept here is the
    first in list order.

    What this fixes is which effects happen and how the join settles. The
    order of the listing is not the program's in two respects: the uploads
    run interleaved, and the join rejects at the first failure, so that the
    effects of an upload still in flight then come after whatever the caller
    does on rejection, not before it as listed here. The statements below
    that read the effects of several uploads speak of membership, of the
    requests of each upload, or of the state the setters leave, none of which
    depends on that order. *)
Fixpoint promise_all {A} (ps : list (Async A)) : Async (list A) :=
  fun db =>
    match ps with
    | [] => (Returned [], [])
    | p :: ps' =>
        let (r, t) := p db in
        let (rs, ts) := promise_all ps' db in
        (match r, rs with
         | Thrown e, _ => Thrown e
         | Returned _, Thrown e => Thrown e
         | Returned a, Returned l => Returned (a :: l)
         end, t ++ ts)
    end.

Definition existingUrls (currentImages : list string) : list string :=
  List.filter isPersisted currentImages.

Definition allImageUrls (currentImages uploadedUrls : list string) : list string :=
  existingUrls currentImages ++ uploadedUrls.

(** [useMutation({ mutationFn: createProducts, onSuccess, onError }).mutateAsync] *)
Definition createMutation_mutateAsync (productData : ProductFormData)
    (variants : list ProductVariant) : Async Product :=
  try_catch
    (product <- createProducts productData variants ;;
     emit (InvalidateQueries ["products"]) ;;;
     emit (SetPendingFiles []) ;;;
     emit (ToastSuccess "商品建立成功") ;;;
     emit (Navigate "/products") ;;;
     ret product)
    (fun error =>
       emit (ConsoleError "建立商品失敗:") ;;;
       emit (ToastError "建立商品失敗") ;;;
       throw error).

Definition updateMutation_mutateAsync (productId : string) (id : string)
    (data : ProductFormData) : Async Product :=
  try_catch
    (product <- updateProduct id data ;;
     emit (InvalidateQueries ["products"]) ;;;
     emit (InvalidateQueries ["product"; productId]) ;;;
     emit (SetPendingFiles []) ;;;
     emit (ToastSuccess "商品更新成功") ;;;
     emit (Navigate "/products") ;;;
     ret product)
    (fun error =>
       emit (ConsoleError "更新商品失敗:") ;;;
       emit (ToastError "更新商品失敗") ;;;
       throw error).

(** [variants || []] *)
Definition variants_or_empty (d : ProductFormData) : list ProductVariant :=
  match variants d with Some vs => vs | None => [] end.

(** [mode === "edit" && productId]: the identifier to update, if any. *)
Definition edit_target (options : UseProductFormOptions) : option string :=
  match mode options, productId options with
  | edit, Some productId => if Js.truthy productId then Some productId else None
  | _, _ => None
  end.

(** The upload phase: nothing to do without pending files, otherwise all
    uploads are started and joined. *)
Definition uploadAll (pendingFiles : list File) : Async (list string) :=
  if is_empty pendingFiles then ret []
  else promise_all (map uploadProductImage pendingFiles).

Definition handleSubmit (options : UseProductFormOptions) (st : FormState)
    : Async unit :=
  let data := values st in
  emit (SetIsUploading true) ;;;
  try_catch
    (uploadedUrls <- uploadAll (pendingFiles st) ;;
     let allImageUrls := allImageUrls (currentImages st) uploadedUrls in
     let variants := variants_or_empty data in
     let productData :=
       set_productImages allImageUrls (rest_without_variants data) in
     match edit_target options with
     | Some productId =>
         updateMutation_mutateAsync productId productId
           (set_variants (Some variants) productData) ;;;
         ret tt
     | None =>
         createMutation_mutateAsync productData variants ;;;
         ret tt
     end)
    (fun error => emit (ConsoleError "提交失敗:")) ;;;
  emit (SetIsUploading false).

(** The state setters among the effects, applied in order. *)
Definition apply_setter (st : FormState) (ev : Event) : FormState :=
  match ev with
  | SetPendingFiles files => setPendingFiles files st
  | SetIsUploading b => setIsUploading b st
  | _ => st
  end.

Definition state_after (t : list Event) (st : FormState) : FormState :=
  fold_left apply_setter t st.

(** ** List view ([routes/products/index.tsx]) *)

(** The built-ins whose tables (Unicode case mapping, Unicode white space,
    date formats) belong to the JavaScript engine: [s.toLowerCase()],
    [s.trim()] and [new Date(s).getTime()], whose result is [None] for
    [NaN]. *)
Record JsRuntime := mkRuntime {
  toLowerCase : string -> string;
  trim : string -> string;
  Date_getTime : string -> option Z
}.

(** ["id" | "qty" | "created_at"] *)
Inductive SortKey := key_id | key_qty | key_created_at.

(** What the comparator can read from a product. *)
Inductive JsVal : Type :=
| JUndefined
| JNumber (n : option Z)          (* [None] is NaN *)
| JString (s : string).

(** [a[sortKey]]: [Product] has the properties [id] and [created_at], and
    none called [qty]. *)
Definition get_property (sortKey : SortKey) (a : Product) : JsVal :=
  match sortKey with
  | key_id => JString (id a)
  | key_qty => JUndefined
  | key_created_at => JString (created_at a)
  end.

(** [x < y]. Two strings compare by code units, two numbers numerically, and
    anything against [undefined] or [NaN] is false. A string is never
    compared with a number here: both operands are read through one key. *)
Definition js_lt (x y : JsVal) : bool :=
  match x, y with
  | JString s, JString t => Js.ltb s t
  | JNumber (Some m), JNumber (Some n) => m <? n
  | _, _ => false
  end.

(** [x > y] *)
Definition js_gt (x y : JsVal) : bool := js_lt y x.

Definition sort_value (rt : JsRuntime) (sortKey : SortKey) (a : Product) : JsVal :=
  match sortKey with
  | key_created_at => JNumber (Date_getTime rt (created_at a))
  | _ => get_property sortKey a
  end.

Definition compareFn (rt : JsRuntime) (sortKey : SortKey) (sortAsc : bool)
    (a b : Product) : Z :=
  let aVal := sort_value rt sortKey a in
  let bVal := sort_value rt sortKey b in
  if js_lt aVal bVal then (if sortAsc then -1 else 1)
  else if js_gt aVal bVal then (if sortAsc then 1 else -1)
  else 0.

(** [list.sort(cmp)]: the sort is stable, and an element moves behind
    another only when the comparator is positive on them. For a consistent
    comparator this insertion sort yields the one arrangement the language
    allows; for an inconsistent one (a [NaN] among the timestamps) the
    language leaves the order to the engine. *)
Fixpoint sort_insert {A} (cmp : A -> A -> Z) (x : A) (l : list A) : list A :=
  match l with
  | [] => [x]
  | y :: l' => if cmp x y >? 0 then y :: sort_insert cmp x l' else x :: l
  end.

Definition array_sort {A} (cmp : A -> A -> Z) (l : list A) : list A :=
  foldr (sort_insert cmp) [] l.

Definition name_matches (rt : JsRuntime) (searchTerm : string) (p : Product) : bool :=
  Js.includes (toLowerCase rt searchTerm) (toLowerCase rt (productName p)).

Definition tag_matches (filterCategory : string) (p : Product) : bool :=
  String.eqb (productTags p) filterCategory.

(** The option of the tag selector that stands for every tag. *)
Definition ALL_TAGS : string := "全部".

Definition filteredProducts (rt : JsRuntime) (products : option (list Product))
    (searchTerm filterCategory : string) (sortKey : SortKey) (sortAsc : bool)
    : list Product :=
  match products with
  | None => []
  | Some products =>
      if is_empty products then []
      else
        let list := products in
        let list :=
          if Js.truthy (trim rt searchTerm)
          then List.filter (name_matches rt searchTerm) list
          else list in
        let list :=
          if negb (String.eqb filterCategory ALL_TAGS)
          then List.filter (tag_matches filterCategory) list
          else list in
        array_sort (compareFn rt sortKey sortAsc) list
  end.

(** The engine's built-ins on ASCII text, for running the list view on
    concrete inputs. *)
Definition ascii_lower (c : ascii) : ascii :=
  let n := N_of_ascii c in
  if ((65 <=? n) && (n <=? 90))%N then ascii_of_N (n + 32) else c.

Fixpoint ascii_toLowerCase (s : string) : string :=
  match s with
  | EmptyString => EmptyString
  | String c s' => String (ascii_lower c) (ascii_toLowerCase s')
  end.

Definition ascii_isSpace (c : ascii) : bool :=
  let n := N_of_ascii c in
  ((n =? 32) || ((9 <=? n) && (n <=? 13)))%N.

Fixpoint trimStart (s : string) : string :=
  match s with
  | EmptyString => EmptyString
  | String c s' => if ascii_isSpace c then trimStart s' else s
  end.

Fixpoint trimEnd (s : string) : string :=
  match s with
  | EmptyString => EmptyString
  | String c s' =>
      match trimEnd s' with
      | EmptyString => if ascii_isSpace c then EmptyString else String c EmptyString
      | t => String c t
      end
  end.

Definition ascii_trim (s : string) : string := trimEnd (trimStart s).

(** Epoch milliseconds of the timestamps the examples use. *)
Definition example_getTime (s : string) : option Z :=
  if String.eqb s "2024-01-01T00:00:00.000Z" then Some 1704067200000
  else if String.eqb s "2024-01-02T00:00:00.000Z" then Some 1704153600000
  else if String.eqb s "2024-01-03T00:00:00.000Z" then Some 1704240000000
  else None.

Definition ascii_runtime : JsRuntime :=
  mkRuntime ascii_toLowerCase ascii_trim example_getTime.

(** ** A table reading of the store, and sample data *)

(** A row of the [variants] table: the variant and its product reference. *)
Record VariantRecord := mkVariantRecord {
  vr_variant : ProductVariant;
  vr_product_id : string
}.

Record Tables := mkTables {
  products_table : list Product;
  variants_table : list VariantRecord
}.

Definition rows_with_id (t : Tables) (productId : string) : list Product :=
  List.filter (fun p => String.eqb (id p) productId) (products_table t).

Definition variants_of (t : Tables) (productId : string) : list ProductVariant :=
  map vr_variant
    (List.filter (fun r => String.eqb (vr_product_id r) productId) (variants_table t)).

(** The product row with its variant rows embedded under [variants]. *)
Definition joined (t : Tables) (p : Product) : Product :=
  mkProduct (set_variants (Some (variants_of t (id p))) (fields p))
            (id p) (created_at p) (updated_at p).

(** Modelled from the spec: the Remote Data Store is an external
    collaborator, not part of the repository. This is its answer to
    [from("products").select("*,variants( * )").eq("id", productId).single()]:
    the row joined with its variants when exactly one row matches, an error
    and no data otherwise. *)
Definition select_single_with_variants (t : Tables) (productId : string)
    : Response Product :=
  match rows_with_id t productId with
  | [p] => Success (joined t p)
  | _ => Failure (mkPgError "JSON object requested, multiple (or no) rows returned"
                            "PGRST116")
  end.

(** The store answers product reads from the tables [t]. *)
Definition reads_from (db : Supabase) (t : Tables) : Prop :=
  forall productId,
    on_products_select_with_variants db productId
    = select_single_with_variants t productId.

Definition red : ProductVariant := mkVariant None "Red" 5%Q 12%Q.
Definition blue : ProductVariant := mkVariant (Some "v-7") "Blue" 3%Q (25 # 2)%Q.

Definition hat : ProductFormData :=
  mkFormData "Hat" "" "Apparel" [] "A-001" 0%Q 0%Q 0%Q 10%Q None.

Definition a_jpg : string :=
  "https://xxx.supabase.co/storage/v1/object/public/productImage/products/a.jpg".

Definition stored (productId : string) (d : ProductFormData) : Product :=
  mkProduct d productId "2024-01-01T00:00:00.000Z" "2024-01-01T00:00:00.000Z".

(** A store holding the tables [t] in which every write succeeds: an insert
    is answered with the row under the identifier [p-1], an update with the
    row under the identifier asked for; [images] is the image column read
    before a deletion, and [removal] the answer of the image removal. *)
Definition store (t : Tables) (images : option (list string))
    (removal : option StorageError) : Supabase :=
  mkSupabase
    (fun d => Success (stored "p-1" d))
    (fun d productId => Success (stored productId d))
    (Success (products_table t))
    (select_single_with_variants t)
    (fun _ => Success images)
    (fun _ => None)
    (fun _ => None)
    (fun _ => None)
    (fun _ _ => None)
    (fun filePath => Some ("https://xxx.supabase.co/storage/v1/object/public/productImage/" +:+ filePath))
    (fun _ => removal)
    (fun _ => "1700000000000-k3j9x").

Definition empty_tables : Tables := mkTables [] [].
Definition empty_store : Supabase := store empty_tables None None.

(** ** Notions used in the statements, and sample states *)

Definition hat_with (vs : list ProductVariant) : ProductFormData :=
  set_variants (Some vs) hat.

Definition hat_tables : Tables :=
  mkTables [stored "p-1" hat; stored "p-2" hat]
           [mkVariantRecord red "p-1"; mkVariantRecord blue "p-2";
            mkVariantRecord blue "p-1"].

(** [product?.productImages], read as a list: a null column holds nothing
    to clean up. *)
Definition images_of (product : option (list string)) : list string :=
  match product with Some productImages => productImages | None => [] end.

Definition store_failing_removal : Supabase :=
  store empty_tables (Some [a_jpg]) (Some (mkStError "timeout")).

Definition photo1 : File := mkFile "front.png" "89504e47".
Definition photo2 : File := mkFile "back.jpg" "ffd8ffe0".
Definition blob1 : string := "blob:http://localhost:5173/0b1c2d3e".
Definition blob2 : string := "blob:http://localhost:5173/4f5a6b7c".


(** An edit session: one stored image, then two freshly selected files. *)
Definition editing : FormState :=
  mkForm (set_productImages [blob1; a_jpg; blob2] hat) [photo1; photo2] false [].

Definition localPreviews (st : FormState) : list string :=
  List.filter isBlob (currentImages st).

(** The controller keeps one pending file per local preview, in the same
    order, and the preview references are pairwise distinct. *)
Definition previews_parallel (st : FormState) : Prop :=
  NoDup (localPreviews st)
  /\ length (pendingFiles st) = length (localPreviews st).

(** The position of the entry at [n] among the local previews. *)
Definition preview_position (n : nat) (imgs : list string) : nat :=
  length (List.filter isBlob (take n imgs)).

(** The product data handed to the repository once the uploads are in. *)
Definition submitted (st : FormState) (uploadedUrls : list string) : ProductFormData :=
  set_productImages (allImageUrls (currentImages st) uploadedUrls)
                    (rest_without_variants (values st)).

Definition new_url : string :=
  "https://xxx.supabase.co/storage/v1/object/public/productImage/products/1700000000000-k3j9x.png".

Definition creating : FormState :=
  mkForm (set_productImages [blob1; a_jpg] hat) [photo1] false [].



(** The test a product has to pass to be listed. *)
Definition listed (rt : JsRuntime) (searchTerm filterCategory : string)
    (p : Product) : bool :=
  (negb (Js.truthy (trim rt searchTerm)) || name_matches rt searchTerm p)
  && (String.eqb filterCategory ALL_TAGS || tag_matches filterCategory p).

Definition cap : ProductFormData :=
  mkFormData "Red Cap" "" "Headwear" [] "A-002" 5%Q 0%Q 0%Q 8%Q None.
Definition sock : ProductFormData :=
  mkFormData "Sock" "" "Apparel" [] "A-003" 2%Q 0%Q 0%Q 3%Q None.

Definition catalogue : list Product :=
  [stored "p-1" cap; stored "p-2" sock; stored "p-3" hat].

(** The order the comparator asks for, on identifiers. *)
Definition id_in_order (sortAsc : bool) (a b : Product) : Prop :=
  if sortAsc then String.leb (id a) (id b) = true
  else String.leb (id b) (id a) = true.

(** The order the comparator asks for, on creation times that parse. *)
Definition time_in_order (rt : JsRuntime) (sortAsc : bool) (a b : Product) : Prop :=
  exists ta tb,
    Date_getTime rt (created_at a) = Some ta
    /\ Date_getTime rt (created_at b) = Some tb
    /\ if sortAsc then ta <= tb else tb <= ta.

(** The browser hands out, for the selected files, preview references that
    start with [blob:], differ from one another and from every entry
    already in the image list. *)
Definition fresh_previews (createObjectURL : File -> string)
    (files : option (list File)) (st : FormState) : Prop :=
  forall newFiles,
    files = Some newFiles ->
    (forall u, In u (map createObjectURL newFiles) ->
       isBlob u = true /\ ~ In u (currentImages st))
    /\ NoDup (map createObjectURL newFiles).

(** A session starts from form values without local previews and no pending
    file, and goes on by selecting and removing images. *)
Inductive reachable : FormState -> Prop :=
| reach_start (d : ProductFormData) :
    (forall u, In u (productImages d) -> isBlob u = false) ->
    reachable (mkForm d [] false [])
| reach_select (createObjectURL : File -> string) (files : option (list File))
    (st : FormState) :
    reachable st ->
    fresh_previews createObjectURL files st ->
    reachable (handleImageSelect createObjectURL files st)
| reach_remove (index : Z) (st : FormState) :
    reachable st ->
    reachable (removeImage index st).

(** The order a comparator asks for: [x] need not come after [y]. *)
Definition in_order {A} (cmp : A -> A -> Z) (x y : A) : Prop := cmp x y <= 0.

(** ** The rest of the list view: sort headers, tag selector, deletion *)

(** The component state of the product list; [modalOpen] is the open state
    of the [delete_modal] dialog. *)
Record ListState := mkListState {
  searchTerm : string;
  filterCategory : string;
  sortKey : SortKey;
  sortAsc : bool;
  productToDelete : option (string * string);   (* { id, name } | null *)
  modalOpen : bool
}.

(** The [useState] defaults. *)
Definition initialListState : ListState :=
  mkListState "" "全部" key_created_at false None false.

Definition sortKey_eqb (a b : SortKey) : bool :=
  match a, b with
  | key_id, key_id | key_qty, key_qty | key_created_at, key_created_at => true
  | _, _ => false
  end.

Definition handleSort (key : SortKey) (s : ListState) : ListState :=
  if sortKey_eqb (sortKey s) key
  then mkListState (searchTerm s) (filterCategory s) (sortKey s) (negb (sortAsc s))
                   (productToDelete s) (modalOpen s)
  else mkListState (searchTerm s) (filterCategory s) key (sortAsc s)
                   (productToDelete s) (modalOpen s).

(** The memoised listing for the current state. *)
Definition listing (rt : JsRuntime) (products : option (list Product))
    (s : ListState) : list Product :=
  filteredProducts rt products (searchTerm s) (filterCategory s)
                   (sortKey s) (sortAsc s).

(** [new Set(values)] read back with [Array.from]: the distinct values in
    the order they were first added. *)
Definition Set_add (seen : list string) (x : string) : list string :=
  if existsb (String.eqb x) seen then seen else seen ++ [x].

Definition Set_from (values : list string) : list string :=
  fold_left Set_add values [].

(** [products && Array.from(new Set(products.map(p => p.productTags).filter(Boolean)))]:
    the tags offered by the selector after its fixed first option. *)
Definition tagOptions (products : option (list Product)) : list string :=
  match products with
  | None => []
  | Some products =>
      Set_from (List.filter Js.truthy (map (fun p : Product => productTags p) products))
  end.

Definition handleDeleteClick (id name : string) (s : ListState) : ListState :=
  mkListState (searchTerm s) (filterCategory s) (sortKey s) (sortAsc s)
              (Some (id, name)) true.

(** [error.message] *)
Definition message_of (error : Exn) : string :=
  match error with
  | PostgrestExn e => pg_message e
  | StorageExn e => st_message e
  | ErrorExn message => message
  end.

Definition close_modal (s : ListState) : ListState :=
  mkListState (searchTerm s) (filterCategory s) (sortKey s) (sortAsc s)
              (productToDelete s) false.

(** [handleConfirmDelete]: [deleteMutation.mutate(productToDelete.id)] with
    its [onSuccess] and [onError]; [mutate] itself never throws. The result
    is the state of the component and the effects performed. What the query
    client does once the list is invalidated (it fetches the list again) is
    its own doing and is not listed. *)
Definition handleConfirmDelete (s : ListState) (db : Supabase)
    : ListState * list Event :=
  match productToDelete s with
  | None => (s, [])
  | Some (id, _) =>
      match deleteProduct id db with
      | (Returned _, t) =>
          (close_modal s,
           t ++ [InvalidateQueries ["products"]; ToastSuccess "商品刪除成功！"])
      | (Thrown error, t) =>
          (s, t ++ [ToastError ("刪除失敗：" +:+ message_of error)])
      end
  end.

(** ** The rest of the form controller *)


(** [useProductForm()] as the create page calls it: no options. *)
Definition default_options : UseProductFormOptions := mkOptions create None.


(** The files among the upload requests, in order. *)
Definition uploaded_files (rs : list Request) : list File :=
  omap (fun r => match r with StorageUpload _ file => Some file | _ => None end) rs.

(** A request that writes to the tables. *)
Definition is_table_write (r : Request) : bool :=
  match r with
  | ProductsInsert _ | ProductsUpdate _ _ | ProductsDelete _
  | VariantsDelete _ | VariantsInsert _ => true
  | _ => false
  end.

(** A character of a string. *)
Fixpoint has_char (c : ascii) (s : string) : bool :=
  match s with
  | EmptyString => false
  | String d s' => Ascii.eqb c d || has_char c s'
  end.

(** The storage key [uploadProductImage] writes a file to. *)
Definition filePath_of (db : Supabase) (file : File) : string :=
  "products/" +:+ (fresh_stem db file +:+ "." +:+ last_segment EmptyString (file_name file)).

(** ** Stores that answer some request differently

    [db] with another answer to one kind of request. *)

Definition with_products_insert (answer : ProductFormData -> Response Product)
    (db : Supabase) : Supabase :=
  mkSupabase answer (on_products_update db) (on_products_select_all db)
    (on_products_select_with_variants db) (on_products_select_images db)
    (on_products_delete db) (on_variants_delete db) (on_variants_insert db)
    (on_storage_upload db) (on_storage_public_url db) (on_storage_remove db)
    (fresh_stem db).

Definition with_products_update (answer : ProductFormData -> string -> Response Product)
    (db : Supabase) : Supabase :=
  mkSupabase (on_products_insert db) answer (on_products_select_all db)
    (on_products_select_with_variants db) (on_products_select_images db)
    (on_products_delete db) (on_variants_delete db) (on_variants_insert db)
    (on_storage_upload db) (on_storage_public_url db) (on_storage_remove db)
    (fresh_stem db).

Definition with_products_select_all (answer : Response (list Product))
    (db : Supabase) : Supabase :=
  mkSupabase (on_products_insert db) (on_products_update db) answer
    (on_products_select_with_variants db) (on_products_select_images db)
    (on_products_delete db) (on_variants_delete db) (on_variants_insert db)
    (on_storage_upload db) (on_storage_public_url db) (on_storage_remove db)
    (fresh_stem db).

Definition with_products_select_images (answer : string -> Response (option (list string)))
    (db : Supabase) : Supabase :=
  mkSupabase (on_products_insert db) (on_products_update db)
    (on_products_select_all db) (on_products_select_with_variants db) answer
    (on_products_delete db) (on_variants_delete db) (on_variants_insert db)
    (on_storage_upload db) (on_storage_public_url db) (on_storage_remove db)
    (fresh_stem db).

Definition with_products_delete (answer : string -> option PostgrestError)
    (db : Supabase) : Supabase :=
  mkSupabase (on_products_insert db) (on_products_update db)
    (on_products_select_all db) (on_products_select_with_variants db)
    (on_products_select_images db) answer (on_variants_delete db)
    (on_variants_insert db) (on_storage_upload db) (on_storage_public_url db)
    (on_storage_remove db) (fresh_stem db).

Definition with_variants_delete (answer : string -> option PostgrestError)
    (db : Supabase) : Supabase :=
  mkSupabase (on_products_insert db) (on_products_update db)
    (on_products_select_all db) (on_products_select_with_variants db)
    (on_products_select_images db) (on_products_delete db) answer
    (on_variants_insert db) (on_storage_upload db) (on_storage_public_url db)
    (on_storage_remove db) (fresh_stem db).

Definition with_variants_insert (answer : list VariantRow -> option PostgrestError)
    (db : Supabase) : Supabase :=
  mkSupabase (on_products_insert db) (on_products_update db)
    (on_products_select_all db) (on_products_select_with_variants db)
    (on_products_select_images db) (on_products_delete db)
    (on_variants_delete db) answer (on_storage_upload db)
    (on_storage_public_url db) (on_storage_remove db) (fresh_stem db).

Definition with_storage_upload (answer : string -> File -> option StorageError)
    (db : Supabase) : Supabase :=
  mkSupabase (on_products_insert db) (on_products_update db)
    (on_products_select_all db) (on_products_select_with_variants db)
    (on_products_select_images db) (on_products_delete db)
    (on_variants_delete db) (on_variants_insert db) answer
    (on_storage_public_url db) (on_storage_remove db) (fresh_stem db).

Definition with_storage_public_url (answer : string -> option string)
    (db : Supabase) : Supabase :=
  mkSupabase (on_products_insert db) (on_products_update db)
    (on_products_select_all db) (on_products_select_with_variants db)
    (on_products_select_images db) (on_products_delete db)
    (on_variants_delete db) (on_variants_insert db) (on_storage_upload db)
    answer (on_storage_remove db) (fresh_stem db).

Definition denied : PostgrestError :=
  mkPgError "permission denied for table" "42501".

Definition quota : StorageError := mkStError "quota exceeded".

(** ** Reading the effects of a submission *)

(** The effects a repository function can have: requests, console lines and
    error or warning toasts. *)
Definition repo_event (ev : Event) : Prop :=
  match ev with
  | Call _ | ConsoleError _ | ConsoleLog _ | ToastError _ | ToastWarning _ => True
  | _ => False
  end.

(** The messages of the error toasts among the effects, in order. *)
Definition error_toasts (t : list Event) : list string :=
  omap (fun ev => match ev with ToastError msg => Some msg | _ => None end) t.

(** The repository call a submission makes once the uploads are in. *)
Definition dispatched (options : UseProductFormOptions) (st : FormState)
    (uploadedUrls : list string) : Async Product :=
  match edit_target options with
  | Some productId =>
      updateProduct productId
        (set_variants (Some (variants_or_empty (values st)))
                      (submitted st uploadedUrls))
  | None =>
      createProducts (submitted st uploadedUrls) (variants_or_empty (values st))
  end.

(** A form holding one stored image, after one file was selected. *)
Definition selected_once : FormState :=
  handleImageSelect (fun _ => blob1) (Some [photo1])
    (mkForm (set_productImages [a_jpg] hat) [] false []).

(** Equality of the values a comparator reads ([NaN] taken as equal to
    itself here: the test only groups products by what was read). *)
Definition JsVal_eqb (x y : JsVal) : bool :=
  match x, y with
  | JUndefined, JUndefined => true
  | JNumber None, JNumber None => true
  | JNumber (Some m), JNumber (Some n) => m =? n
  | JString s, JString t => String.eqb s t
  | _, _ => false
  end.

(** A product row with a given creation time. *)
Definition dated (productId created : string) (d : ProductFormData) : Product :=
  mkProduct d productId created created.

(** Three products created on three days, not in that order. *)
Definition dated_catalogue : list Product :=
  [dated "p-1" "2024-01-02T00:00:00.000Z" cap;
   dated "p-2" "2024-01-01T00:00:00.000Z" sock;
   dated "p-3" "2024-01-03T00:00:00.000Z" hat].

(** Three products, the first and the last created at the same instant. *)
Definition tie_catalogue : list Product :=
  [dated "p-1" "2024-01-02T00:00:00.000Z" cap;
   dated "p-2" "2024-01-01T00:00:00.000Z" sock;
   dated "p-3" "2024-01-02T00:00:00.000Z" hat].

(** The values the upload flag is set to among the effects, in order. *)
Definition upload_flag_settings (t : list Event) : list bool :=
  omap (fun ev => match ev with SetIsUploading b => Some b | _ => None end) t.

(** A store whose public URLs escape the key: a sample of the escaping, in
    which a space is written [%20] and every other character is left as it
    is. *)
Fixpoint percent_spaces (s : string) : string :=
  match s with
  | EmptyString => EmptyString
  | String c s' =>
      if Ascii.eqb c " " then "%20" +:+ percent_spaces s'
      else String c (percent_spaces s')
  end.

Definition escaping_store : Supabase :=
  with_storage_public_url
    (fun filePath =>
       Some ("https://xxx.supabase.co/storage/v1/object/public/productImage/"
             +:+ percent_spaces filePath))
    empty_store.

(** A file whose name ends in an extension with a space. *)
Definition scan : File := mkFile "receipt.scan 1" "25504446".

(** * Properties *)

(** ** Strings *)

Lemma append_String c s t : String c s +:+ t = String c (s +:+ t).
Proof. reflexivity. Qed.

Lemma append_Empty t : EmptyString +:+ t = t.
Proof. reflexivity. Qed.

Lemma startsWith_spec p s :
  Js.startsWith p s = true <-> exists rest, s = p +:+ rest.
Proof.
  revert s. induction p as [|a p IH]; intros s; simpl.
  - split; [intros _; exists s; reflexivity | reflexivity].
  - destruct s as [|b s]; simpl.
    + split; [discriminate | intros [rest H]; discriminate].
    + destruct (Ascii.eqb_spec a b) as [->|Hne].
      * rewrite IH. split; intros [rest H]; exists rest;
          rewrite append_String in *; congruence.
      * split; [discriminate | intros [rest H]].
        rewrite append_String in H. congruence.
Qed.

Lemma afterPrefix_spec p s rest :
  Js.afterPrefix p s = Some rest <-> s = p +:+ rest.
Proof.
  revert s. induction p as [|a p IH]; intros s; simpl.
  - rewrite append_Empty. split; congruence.
  - destruct s as [|b s]; simpl.
    + split; discriminate.
    + rewrite append_String. destruct (Ascii.eqb_spec a b) as [->|Hne].
      * rewrite IH. split; congruence.
      * split; [discriminate | congruence].
Qed.

Lemma includes_spec p s :
  Js.includes p s = true <-> exists pre post, s = pre +:+ p +:+ post.
Proof.
  induction s as [|c s IH]; simpl.
  - rewrite orb_false_r, startsWith_spec. split.
    + intros [rest H]. exists EmptyString, rest. assumption.
    + intros (pre & post & H). destruct pre; [eauto | discriminate].
  - rewrite orb_true_iff, startsWith_spec, IH. split.
    + intros [[rest H] | (pre & post & H)].
      * exists EmptyString, rest. assumption.
      * exists (String c pre), post. rewrite append_String. congruence.
    + intros (pre & post & H). destruct pre as [|c' pre].
      * left. eauto.
      * right. exists pre, post. rewrite append_String in H. congruence.
Qed.

Lemma truthy_spec s : Js.truthy s = true <-> s <> EmptyString.
Proof. destruct s; simpl; split; congruence. Qed.

(** ** Running the repository functions *)

Ltac run_async :=
  unfold try_catch, bind, request, emit, ret, throw; simpl.

Lemma createProducts_run db productData variants :
  createProducts productData variants db =
  let ins := Call (ProductsInsert productData) in
  match on_products_insert db productData with
  | Failure e => (Thrown (PostgrestExn e), [ins])
  | Success product =>
      let rows := map (with_product_id (id product)) variants in
      if is_empty variants then (Returned product, [ins])
      else
        match on_variants_insert db rows with
        | Some e => (Thrown (PostgrestExn e), [ins; Call (VariantsInsert rows)])
        | None => (Returned product, [ins; Call (VariantsInsert rows)])
        end
  end.
Proof.
  unfold createProducts. run_async.
  destruct (on_products_insert db productData) as [product|e]; [|reflexivity].
  destruct variants as [|v vs]; [reflexivity|]. simpl.
  destruct (on_variants_insert db _); reflexivity.
Qed.

Lemma is_empty_spec {A} (l : list A) : is_empty l = true <-> l = [].
Proof. destruct l; simpl; split; congruence. Qed.

Lemma createProducts_calls db productData variants :
  calls (createProducts productData variants) db =
  ProductsInsert productData ::
  match on_products_insert db productData with
  | Failure _ => []
  | Success product =>
      if is_empty variants then []
      else [VariantsInsert (map (with_product_id (id product)) variants)]
  end.
Proof.
  unfold calls, events. rewrite createProducts_run. cbv zeta.
  destruct (on_products_insert db productData) as [product|e]; [|reflexivity].
  destruct (is_empty variants); [reflexivity|].
  destruct (on_variants_insert db _); reflexivity.
Qed.

Lemma createProducts_outcome db productData variants product :
  on_products_insert db productData = Success product ->
  variants = [] \/
  on_variants_insert db (map (with_product_id (id product)) variants) = None ->
  outcome (createProducts productData variants) db = Returned product.
Proof.
  intros Hins Hvar. unfold outcome. rewrite createProducts_run, Hins. cbv zeta.
  destruct Hvar as [-> | ->]; [reflexivity|].
  destruct (is_empty variants); reflexivity.
Qed.

(** C4. Every call of [createProducts] sends exactly one product insert,
    carrying the given product data, before anything else. When that insert
    succeeds with the created [product], a variant insert follows if and only
    if the variant list is non-empty; it is the only other request, every row
    of it carries [product_id] equal to the identifier of the created
    product, and [createProducts] returns the created product (unless the
    variant insert itself fails). With no variants, no variant insert is
    sent. *)
Theorem createProducts_inserts db productData variants :
  (exists rest,
      calls (createProducts productData variants) db
      = ProductsInsert productData :: rest
      /\ forall d, ~ In (ProductsInsert d) rest)
  /\ forall product,
      on_products_insert db productData = Success product ->
      let rows := map (with_product_id (id product)) variants in
      (variants = [] ->
         calls (createProducts productData variants) db
         = [ProductsInsert productData]
         /\ outcome (createProducts productData variants) db = Returned product)
      /\ (variants <> [] ->
         calls (createProducts productData variants) db
         = [ProductsInsert productData; VariantsInsert rows])
      /\ ((exists sent, In (VariantsInsert sent)
                          (calls (createProducts productData variants) db))
          <-> variants <> [])
      /\ (forall sent,
            In (VariantsInsert sent) (calls (createProducts productData variants) db) ->
            sent = rows
            /\ length sent = length variants
            /\ Forall (fun r => row_product_id r = id product) sent)
      /\ (on_variants_insert db rows = None ->
            outcome (createProducts productData variants) db = Returned product).
Proof.
  rewrite createProducts_calls. split.
  - eexists. split; [reflexivity|].
    intros d. destruct (on_products_insert db productData) as [product|e];
      [destruct (is_empty variants)|]; simpl; intuition discriminate.
  - intros product Hins rows. rewrite Hins.
    assert (Htag : Forall (fun r => row_product_id r = id product) rows).
    { apply List.Forall_forall. intros r Hr. apply in_map_iff in Hr.
      destruct Hr as (v & <- & _). reflexivity. }
    fold rows. destruct variants as [|v vs]; cbn [is_empty].
    + split; [intros _; split; [reflexivity|]|].
      { apply createProducts_outcome with (product := product); auto. }
      split; [congruence|].
      split; [split; [intros [sent [H|[]]]; discriminate | congruence]|].
      split; [intros sent [H|[]]; discriminate|].
      intros _. apply createProducts_outcome with (product := product); auto.
    + split; [discriminate|].
      split; [reflexivity|].
      split; [split; [discriminate | intros _; exists rows; right; left; reflexivity]|].
      split.
      * intros sent [H|[H|[]]]; [discriminate|]. inversion H as [Hs].
        split; [reflexivity|]. split; [|exact Htag].
        unfold rows. rewrite length_map. reflexivity.
      * intros H. apply createProducts_outcome with (product := product); auto.
Qed.

Lemma createProducts_inserts_witness :
  on_products_insert empty_store hat = Success (stored "p-1" hat)
  /\ calls (createProducts hat [red]) empty_store
     = [ProductsInsert hat; VariantsInsert [mkRow None "Red" 5%Q 12%Q "p-1"]]
  /\ calls (createProducts hat []) empty_store = [ProductsInsert hat]
  /\ outcome (createProducts hat [red]) empty_store = Returned (stored "p-1" hat).
Proof.
  split; [reflexivity|].
  pose proof (proj2 (createProducts_inserts empty_store hat [red])
                (stored "p-1" hat) eq_refl) as (_ & Hsome & _ & _ & Hret).
  pose proof (proj2 (createProducts_inserts empty_store hat [])
                (stored "p-1" hat) eq_refl) as (Hnone & _).
  split; [exact (Hsome ltac:(discriminate))|].
  split; [exact (proj1 (Hnone eq_refl))|].
  exact (Hret eq_refl).
Defined.

Lemma updateProduct_run db id productData :
  updateProduct id productData db =
  let productFields := rest_without_variants productData in
  let upd := Call (ProductsUpdate productFields id) in
  let rethrown := ConsoleError "更新商品過程發生錯誤:" in
  match on_products_update db productFields id with
  | Failure e =>
      (Thrown (PostgrestExn e),
       [upd; ConsoleError "更新商品失敗:"; ToastError "更新商品失敗"; rethrown])
  | Success updatedProduct =>
      match variants productData with
      | None => (Returned updatedProduct, [upd])
      | Some vs =>
          let del := Call (VariantsDelete id) in
          match on_variants_delete db id with
          | Some e =>
              (Thrown (PostgrestExn e),
               [upd; del; ConsoleError "刪除舊變體失敗:"; ToastError "更新變體失敗";
                rethrown])
          | None =>
              if is_empty vs then (Returned updatedProduct, [upd; del])
              else
                let rows := map (variant_to_insert id) vs in
                match on_variants_insert db rows with
                | Some e =>
                    (Thrown (PostgrestExn e),
                     [upd; del; Call (VariantsInsert rows);
                      ConsoleError "插入新變體失敗:"; ToastError "更新變體失敗";
                      rethrown])
                | None =>
                    (Returned updatedProduct, [upd; del; Call (VariantsInsert rows)])
                end
          end
      end
  end.
Proof.
  unfold updateProduct. run_async.
  destruct (on_products_update db _ id) as [updatedProduct|e]; [|reflexivity].
  destruct (variants productData) as [vs|]; [|reflexivity]. simpl.
  destruct (on_variants_delete db id); [reflexivity|].
  destruct vs as [|v vs]; [reflexivity|]. simpl.
  destruct (on_variants_insert db _); reflexivity.
Qed.

Lemma updateProduct_calls db id productData :
  calls (updateProduct id productData) db =
  ProductsUpdate (rest_without_variants productData) id ::
  match on_products_update db (rest_without_variants productData) id with
  | Failure _ => []
  | Success _ =>
      match variants productData with
      | None => []
      | Some vs =>
          VariantsDelete id ::
          match on_variants_delete db id with
          | Some _ => []
          | None =>
              if is_empty vs then []
              else [VariantsInsert (map (variant_to_insert id) vs)]
          end
      end
  end.
Proof.
  unfold calls, events. rewrite updateProduct_run. cbv zeta.
  destruct (on_products_update db _ id); [|reflexivity].
  destruct (variants productData) as [vs|]; [|reflexivity].
  destruct (on_variants_delete db id); [reflexivity|].
  destruct (is_empty vs); [reflexivity|].
  destruct (on_variants_insert db _); reflexivity.
Qed.

(** C1, as the code has it. For every update call whose product-row update
    succeeds: when the call carries a variant list (the [variants] field is
    not undefined), the update of the product row is followed by a delete of
    all variant rows of that product identifier, and then, only if that
    delete succeeded and the new list is non-empty, by one insert of the new
    variant set; in particular an update to zero variants issues the delete
    and no insert. When the call carries no variant list, neither a delete
    nor an insert is issued. *)
Theorem updateProduct_replaces_variants db id productData updatedProduct :
  on_products_update db (rest_without_variants productData) id
  = Success updatedProduct ->
  let upd := ProductsUpdate (rest_without_variants productData) id in
  (forall vs,
      variants productData = Some vs ->
      exists tail,
        calls (updateProduct id productData) db = [upd; VariantsDelete id] ++ tail
        /\ (tail = [] \/ tail = [VariantsInsert (map (variant_to_insert id) vs)])
        /\ (tail <> [] <-> vs <> [] /\ on_variants_delete db id = None))
  /\ (variants productData = Some [] ->
      calls (updateProduct id productData) db = [upd; VariantsDelete id])
  /\ (variants productData = None ->
      calls (updateProduct id productData) db = [upd]).
Proof.
  intros Hupd upd. rewrite updateProduct_calls, Hupd. fold upd.
  split; [|split].
  - intros vs ->.
    destruct (on_variants_delete db id) as [e|].
    + exists []. split; [reflexivity|]. split; [left; reflexivity|].
      split; [congruence | intros [_ H]; discriminate].
    + destruct vs as [|v vs]; cbn [is_empty].
      * exists []. split; [reflexivity|]. split; [left; reflexivity|].
        split; [congruence | intros [H _]; congruence].
      * eexists. split; [reflexivity|]. split; [right; reflexivity|].
        split; [intros _; split; [discriminate | reflexivity] | discriminate].
  - intros ->. destruct (on_variants_delete db id); reflexivity.
  - intros ->. reflexivity.
Qed.

Lemma updateProduct_replaces_variants_witness :
  on_products_update empty_store (rest_without_variants (hat_with [])) "p-1"
  = Success (stored "p-1" hat)
  /\ calls (updateProduct "p-1" (hat_with [])) empty_store
     = [ProductsUpdate hat "p-1"; VariantsDelete "p-1"].
Proof.
  split; [reflexivity|].
  pose proof (updateProduct_replaces_variants empty_store "p-1" (hat_with [])
                (stored "p-1" hat) eq_refl) as (_ & Hzero & _).
  exact (Hzero eq_refl).
Defined.

(** C1, as stated, fails: an update call without a variant list (the field
    is optional in [ProductFormData]) updates the product row and issues no
    delete of variant rows. *)
Lemma updateProduct_without_variants_no_delete :
  variants hat = None
  /\ outcome (updateProduct "p-1" hat) empty_store = Returned (stored "p-1" hat)
  /\ calls (updateProduct "p-1" hat) empty_store = [ProductsUpdate hat "p-1"]
  /\ ~ In (VariantsDelete "p-1") (calls (updateProduct "p-1" hat) empty_store).
Proof.
  split; [reflexivity|]. split; [reflexivity|]. split; [reflexivity|].
  intros [H|[]]. discriminate.
Qed.

Lemma variant_to_insert_keys id vs :
  Forall (fun r => row_id r = None /\ row_product_id r = id)
         (map (variant_to_insert id) vs).
Proof. induction vs as [|v vs IH]; simpl; constructor; auto. Qed.

Lemma variant_to_insert_values id vs :
  Forall2 (fun r v => row_name r = variant_name v
                      /\ row_stock r = variant_stock v
                      /\ row_price r = variant_price v)
          (map (variant_to_insert id) vs) vs.
Proof. induction vs as [|v vs IH]; simpl; constructor; auto. Qed.

(** C10. Whatever the store answers, every variant row that [updateProduct]
    sends for insertion is built from the call's non-empty variant list, row
    by row, with only [product_id], [name], [stock] and [price]:
    [product_id] is the identifier being updated, the other three are the
    variant's, and the [id] key is absent even when the client supplied one. *)
Theorem updateProduct_inserted_rows db id productData rows :
  In (VariantsInsert rows) (calls (updateProduct id productData) db) ->
  exists vs,
    variants productData = Some vs
    /\ vs <> []
    /\ rows = map (variant_to_insert id) vs
    /\ Forall (fun r => row_id r = None /\ row_product_id r = id) rows
    /\ Forall2 (fun r v => row_name r = variant_name v
                           /\ row_stock r = variant_stock v
                           /\ row_price r = variant_price v) rows vs.
Proof.
  rewrite updateProduct_calls.
  intros [H|H]; [discriminate|].
  destruct (on_products_update db _ id); [|destruct H].
  destruct (variants productData) as [vs|]; [|destruct H].
  destruct H as [H|H]; [discriminate|].
  destruct (on_variants_delete db id); [destruct H|].
  destruct vs as [|v vs]; [destruct H|]. cbn [is_empty] in H.
  destruct H as [H|[]]. inversion H as [Hrows]. clear H.
  exists (v :: vs). split; [reflexivity|]. split; [discriminate|].
  split; [reflexivity|]. split.
  - apply (variant_to_insert_keys id (v :: vs)).
  - apply (variant_to_insert_values id (v :: vs)).
Qed.

Lemma updateProduct_inserted_rows_witness :
  In (VariantsInsert [mkRow None "Red" 5%Q 12%Q "p-1";
                      mkRow None "Blue" 3%Q (25 # 2)%Q "p-1"])
     (calls (updateProduct "p-1" (hat_with [red; blue])) empty_store)
  /\ variant_id blue = Some "v-7"
  /\ exists vs,
      variants (hat_with [red; blue]) = Some vs
      /\ vs <> []
      /\ [mkRow None "Red" 5%Q 12%Q "p-1"; mkRow None "Blue" 3%Q (25 # 2)%Q "p-1"]
         = map (variant_to_insert "p-1") vs
      /\ Forall (fun r => row_id r = None /\ row_product_id r = "p-1")
           [mkRow None "Red" 5%Q 12%Q "p-1"; mkRow None "Blue" 3%Q (25 # 2)%Q "p-1"]
      /\ Forall2 (fun r v => row_name r = variant_name v
                             /\ row_stock r = variant_stock v
                             /\ row_price r = variant_price v)
           [mkRow None "Red" 5%Q 12%Q "p-1"; mkRow None "Blue" 3%Q (25 # 2)%Q "p-1"] vs.
Proof.
  assert (Hin : In (VariantsInsert [mkRow None "Red" 5%Q 12%Q "p-1";
                                    mkRow None "Blue" 3%Q (25 # 2)%Q "p-1"])
                  (calls (updateProduct "p-1" (hat_with [red; blue])) empty_store)).
  { right. right. left. reflexivity. }
  split; [exact Hin|]. split; [reflexivity|].
  exact (updateProduct_inserted_rows empty_store "p-1" (hat_with [red; blue]) _ Hin).
Defined.

Lemma getProduct_run db productId :
  getProduct productId db =
  match on_products_select_with_variants db productId with
  | Success data =>
      (Returned (Some data), [Call (ProductsSelectWithVariants productId)])
  | Failure _ =>
      (Returned None,
       [Call (ProductsSelectWithVariants productId); ConsoleError "獲取商品失敗:"])
  end.
Proof.
  unfold getProduct. run_async.
  destruct (on_products_select_with_variants db productId); reflexivity.
Qed.

Lemma rows_with_id_single t productId p :
  rows_with_id t productId = [p] -> id p = productId /\ In p (products_table t).
Proof.
  intros H. assert (Hin : In p (rows_with_id t productId)) by (rewrite H; left; reflexivity).
  unfold rows_with_id in Hin. apply filter_In in Hin. destruct Hin as [Hin Heq].
  apply String.eqb_eq in Heq. auto.
Qed.

(** C2, as the code has it. [getProduct] never fails: it settles with the
    [data] of the store's answer, which is null when the store reported an
    error, and logs that error. So for an identifier that matches no product
    row it logs and returns null; for an identifier that matches one row
    (identifiers are unique) it returns that row joined with its variants. *)
Theorem getProduct_returns_data db productId :
  (exists data, outcome (getProduct productId) db = Returned data)
  /\ forall t,
      reads_from db t ->
      (rows_with_id t productId = [] ->
         outcome (getProduct productId) db = Returned None
         /\ In (ConsoleError "獲取商品失敗:") (events (getProduct productId) db))
      /\ (forall p,
            rows_with_id t productId = [p] ->
            outcome (getProduct productId) db = Returned (Some (joined t p))
            /\ id (joined t p) = productId
            /\ rest_without_variants (joined t p) = rest_without_variants p
            /\ variants (joined t p) = Some (variants_of t productId)).
Proof.
  unfold outcome, events. rewrite getProduct_run. split.
  - destruct (on_products_select_with_variants db productId); eexists; reflexivity.
  - intros t Hreads. rewrite !(Hreads productId).
    unfold select_single_with_variants. split.
    + intros ->. simpl. auto.
    + intros p Hp. rewrite Hp. simpl.
      destruct (rows_with_id_single _ _ _ Hp) as [<- _]. auto.
Qed.

Lemma getProduct_returns_data_witness :
  reads_from (store hat_tables None None) hat_tables
  /\ rows_with_id hat_tables "p-1" = [stored "p-1" hat]
  /\ rows_with_id hat_tables "p-404" = []
  /\ outcome (getProduct "p-1") (store hat_tables None None)
     = Returned (Some (stored "p-1" (hat_with [red; blue])))
  /\ outcome (getProduct "p-404") (store hat_tables None None) = Returned None.
Proof.
  assert (Hreads : reads_from (store hat_tables None None) hat_tables)
    by (intros productId; reflexivity).
  split; [exact Hreads|]. split; [reflexivity|]. split; [reflexivity|].
  pose proof (proj2 (getProduct_returns_data (store hat_tables None None) "p-1")
                hat_tables Hreads) as [_ Hone].
  pose proof (proj2 (getProduct_returns_data (store hat_tables None None) "p-404")
                hat_tables Hreads) as [Hnone _].
  split; [exact (proj1 (Hone (stored "p-1" hat) eq_refl))|].
  exact (proj1 (Hnone eq_refl)).
Defined.

(** C2, as stated, fails: for an identifier that matches no row the call
    does not fail, it returns null. *)
Lemma getProduct_no_row_returns_null :
  rows_with_id hat_tables "p-404" = []
  /\ outcome (getProduct "p-404") (store hat_tables None None) = Returned None
  /\ forall e, outcome (getProduct "p-404") (store hat_tables None None) <> Thrown e.
Proof.
  split; [reflexivity|]. split; [reflexivity|]. intros e H. discriminate.
Qed.

(** ** Deleting a product *)

Lemma match_bucket_key_sound url key :
  match_bucket_key url = Some key ->
  key <> EmptyString
  /\ Js.hasLineTerminator key = false
  /\ exists pre, url = pre +:+ "productImage/" +:+ key.
Proof.
  induction url as [|c url IH]; intros H.
  - simpl in H. discriminate.
  - cbn [match_bucket_key] in H.
    destruct (Js.afterPrefix "productImage/" (String c url)) as [rest|] eqn:Hpre.
    + destruct (Js.truthy rest && negb (Js.hasLineTerminator rest)) eqn:Hok.
      * inversion H; subst key. apply andb_true_iff in Hok. destruct Hok as [Ht Hl].
        apply truthy_spec in Ht. apply negb_true_iff in Hl.
        apply afterPrefix_spec in Hpre.
        split; [assumption|]. split; [assumption|]. exists EmptyString. exact Hpre.
      * destruct (IH H) as (Hne & Hl & pre & ->).
        split; [assumption|]. split; [assumption|]. exists (String c pre). reflexivity.
    + destruct (IH H) as (Hne & Hl & pre & ->).
      split; [assumption|]. split; [assumption|]. exists (String c pre). reflexivity.
Qed.

(** Every URL of the shape [<base>/productImage/<key>] yields a key. *)
Lemma match_bucket_key_complete pre key :
  key <> EmptyString ->
  Js.hasLineTerminator key = false ->
  exists key', match_bucket_key (pre +:+ "productImage/" +:+ key) = Some key'.
Proof.
  intros Hne Hl. induction pre as [|c pre IH].
  - exists key. rewrite append_Empty.
    assert (Hpre : Js.afterPrefix "productImage/" ("productImage/" +:+ key) = Some key)
      by (apply afterPrefix_spec; reflexivity).
    assert (Hok : Js.truthy key && negb (Js.hasLineTerminator key) = true).
    { rewrite Hl. apply andb_true_iff. split; [apply truthy_spec; assumption | reflexivity]. }
    change ("productImage/" +:+ key) with (String "p" ("roductImage/" +:+ key)) in *.
    cbn [match_bucket_key]. rewrite Hpre, Hok. reflexivity.
  - destruct IH as [key' IH]. rewrite append_String. cbn [match_bucket_key].
    destruct (Js.afterPrefix "productImage/" _) as [rest|]; [|eauto].
    destruct (Js.truthy rest && negb (Js.hasLineTerminator rest)); eauto.
Qed.


Lemma filePaths_of_nil : filePaths_of [] = [].
Proof. reflexivity. Qed.

Lemma deleteProduct_run db productId :
  deleteProduct productId db =
  let sel := Call (ProductsSelectImages productId) in
  let del := Call (ProductsDelete productId) in
  let rethrown := ConsoleError "刪除商品過程發生錯誤:" in
  match on_products_select_images db productId with
  | Failure e =>
      (Thrown (ErrorExn (pg_message e)),
       [sel; ConsoleError "獲取商品資料失敗:"; rethrown])
  | Success product =>
      match on_products_delete db productId with
      | Some e =>
          (Thrown (ErrorExn (pg_message e)),
           [sel; del; ConsoleError "刪除商品失敗:"; rethrown])
      | None =>
          (Returned (mkDeleteResult true),
           [sel; del] ++
           (if is_empty (images_of product) then []
            else
              let filePaths := filePaths_of (images_of product) in
              ConsoleLog "準備刪除的圖片路徑:" ::
              (if is_empty filePaths then []
               else
                 Call (StorageRemove filePaths) ::
                 match on_storage_remove db filePaths with
                 | Some _ =>
                     [ConsoleError "刪除圖片失敗:";
                      ToastWarning "商品已刪除，但部分圖片刪除失敗"]
                 | None => [ConsoleLog "圖片刪除成功"]
                 end)))
      end
  end.
Proof.
  unfold deleteProduct. run_async.
  destruct (on_products_select_images db productId) as [product|e]; [|reflexivity].
  destruct (on_products_delete db productId); [reflexivity|].
  destruct product as [[|url productImages]|]; try reflexivity.
  cbn [images_of is_empty]. generalize (filePaths_of (url :: productImages)).
  intros [|key keys]; [reflexivity|]. simpl.
  destruct (on_storage_remove db (key :: keys)); reflexivity.
Qed.



(** ** Arrays by index *)

Lemma filter_from_out {A} (index : Z) (l : list A) (i : Z) :
  index < i \/ i + Z.of_nat (length l) <= index ->
  Js.filter_from (fun _ j => negb (j =? index)) l i = l.
Proof.
  revert i. induction l as [|x l IH]; intros i H; [reflexivity|].
  cbn [Js.filter_from]. cbn [length] in H.
  destruct (Z.eqb_spec i index) as [Heq|Hne]; [lia|].
  cbn [negb]. f_equal. apply IH. lia.
Qed.

Lemma filter_from_in {A} (index : Z) (l : list A) (i : Z) :
  i <= index ->
  Js.filter_from (fun _ j => negb (j =? index)) l i = delete (Z.to_nat (index - i)) l.
Proof.
  revert i. induction l as [|x l IH]; intros i H; [reflexivity|].
  cbn [Js.filter_from].
  destruct (Z.eqb_spec i index) as [Heq|Hne]; cbn [negb].
  - subst i. replace (index - index) with 0 by lia.
    change (delete (Z.to_nat 0) (x :: l)) with l.
    apply filter_from_out. lia.
  - rewrite IH by lia.
    replace (Z.to_nat (index - i)) with (S (Z.to_nat (index - (i + 1)))) by lia.
    reflexivity.
Qed.

Lemma delete_out {A} (l : list A) (n : nat) : (length l <= n)%nat -> delete n l = l.
Proof.
  revert n. induction l as [|x l IH]; intros [|n] H; simpl in *; try reflexivity; try lia.
  change (x :: delete n l = x :: l). f_equal. apply IH. lia.
Qed.

(** [without_index] drops the entry at [index], and nothing when [index]
    points outside the array. *)
Lemma without_index_in {A} (index : Z) (l : list A) :
  0 <= index -> without_index index l = delete (Z.to_nat index) l.
Proof.
  intros H. unfold without_index, Js.filteri. rewrite filter_from_in by lia.
  f_equal. lia.
Qed.

Lemma without_index_out {A} (index : Z) (l : list A) :
  index < 0 \/ Z.of_nat (length l) <= index -> without_index index l = l.
Proof.
  intros H. unfold without_index, Js.filteri. apply filter_from_out. lia.
Qed.

Lemma at_index_Some {A} (l : list A) (i : Z) (x : A) :
  Js.at_index l i = Some x <-> 0 <= i /\ l !! Z.to_nat i = Some x.
Proof.
  unfold Js.at_index. destruct (Z.ltb_spec i 0); split.
  - discriminate.
  - intros [? _]. lia.
  - auto.
  - intros [_ ?]. assumption.
Qed.

Lemma at_index_None {A} (l : list A) (i : Z) :
  Js.at_index l i = None <-> i < 0 \/ Z.of_nat (length l) <= i.
Proof.
  unfold Js.at_index. destruct (Z.ltb_spec i 0).
  - split; [auto | reflexivity].
  - rewrite lookup_ge_None. split; [intros; right; lia | intros [|]; lia].
Qed.

Lemma indexOf_from_first (x : string) (pre post : list string) (i : Z) :
  ~ In x pre ->
  Js.indexOf_from x (pre ++ x :: post) i = i + Z.of_nat (length pre).
Proof.
  revert i. induction pre as [|y pre IH]; intros i Hnot; simpl.
  - rewrite String.eqb_refl. lia.
  - destruct (String.eqb_spec y x) as [->|Hne].
    + exfalso. apply Hnot. left. reflexivity.
    + rewrite IH; [lia|]. intros Hin. apply Hnot. right. assumption.
Qed.

Lemma indexOf_from_range (x : string) (l : list string) (i : Z) :
  Js.indexOf_from x l i = -1 \/
  i <= Js.indexOf_from x l i < i + Z.of_nat (length l).
Proof.
  revert i. induction l as [|y l IH]; intros i; simpl; [left; reflexivity|].
  destruct (String.eqb y x); [right; lia|].
  destruct (IH (i + 1)) as [H|H]; [left; assumption | right; lia].
Qed.

Lemma removeImage_outside (index : Z) (st : FormState) :
  index < 0 \/ Z.of_nat (length (currentImages st)) <= index ->
  removeImage index st = st.
Proof.
  intros H. unfold removeImage.
  rewrite (proj2 (at_index_None (currentImages st) index) H).
  rewrite without_index_out by assumption.
  destruct st as [[? ? ? imgs ? ? ? ? ? ?] pend up rev]. reflexivity.
Qed.

(** C9. For an index outside the image list (negative, or at least its
    length) [removeImage] returns and leaves the controller as it was: the
    image list, the pending files, and everything else. *)
Theorem removeImage_out_of_range (index : Z) (st : FormState) :
  index < 0 \/ Z.of_nat (length (currentImages st)) <= index ->
  currentImages (removeImage index st) = currentImages st
  /\ pendingFiles (removeImage index st) = pendingFiles st
  /\ removeImage index st = st.
Proof.
  intros H. rewrite (removeImage_outside index st H). auto.
Qed.

Lemma removeImage_out_of_range_witness :
  (Z.of_nat (length (currentImages editing)) <= 3)
  /\ removeImage 3 editing = editing
  /\ removeImage (-1) editing = editing.
Proof.
  split; [simpl; lia|].
  split.
  - apply (removeImage_out_of_range 3 editing). right. simpl. lia.
  - apply (removeImage_out_of_range (-1) editing). left. lia.
Defined.

(** ** Local previews and pending files run in parallel *)

Lemma removeImage_on_preview st index img :
  Js.at_index (currentImages st) index = Some img ->
  isBlob img = true ->
  removeImage index st =
  mkForm (set_productImages (without_index index (currentImages st)) (values st))
         (if negb (Js.indexOf img (localPreviews st) =? -1)
          then without_index (Js.indexOf img (localPreviews st)) (pendingFiles st)
          else pendingFiles st)
         (isUploading st) (revoked st ++ [img]).
Proof.
  intros Hat Hblob. unfold removeImage. rewrite Hat, Hblob. fold (localPreviews st).
  destruct (negb (Js.indexOf img (localPreviews st) =? -1)); reflexivity.
Qed.

Lemma removeImage_on_persisted st index img :
  Js.at_index (currentImages st) index = Some img ->
  isBlob img = false ->
  removeImage index st
  = setValue_productImages (without_index index (currentImages st)) st.
Proof.
  intros Hat Hblob. unfold removeImage. rewrite Hat, Hblob. reflexivity.
Qed.

Lemma currentImages_mkForm d pend up rev imgs :
  currentImages (mkForm (set_productImages imgs d) pend up rev) = imgs.
Proof. reflexivity. Qed.

Lemma previews_split (imgs : list string) (n : nat) (img : string) :
  imgs !! n = Some img ->
  isBlob img = true ->
  List.filter isBlob imgs
  = List.filter isBlob (take n imgs) ++ img :: List.filter isBlob (drop (S n) imgs).
Proof.
  intros Hn Hblob. rewrite <- (take_drop_middle imgs n img Hn) at 1.
  rewrite List.filter_app. cbn [List.filter]. rewrite Hblob. reflexivity.
Qed.

Lemma indexOf_preview (imgs : list string) (n : nat) (img : string) :
  imgs !! n = Some img ->
  isBlob img = true ->
  NoDup (List.filter isBlob imgs) ->
  Js.indexOf img (List.filter isBlob imgs) = Z.of_nat (preview_position n imgs).
Proof.
  intros Hn Hblob Hnodup. rewrite (previews_split imgs n img Hn Hblob) in *.
  unfold Js.indexOf. rewrite indexOf_from_first; [unfold preview_position; lia|].
  apply NoDup_app in Hnodup. destruct Hnodup as (_ & Hdisj & _).
  intros Hin. apply list_elem_of_In in Hin. apply (Hdisj img Hin). left.
Qed.

Lemma preview_position_lt (imgs : list string) (n : nat) (img : string) :
  imgs !! n = Some img ->
  isBlob img = true ->
  (preview_position n imgs < length (List.filter isBlob imgs))%nat.
Proof.
  intros Hn Hblob. rewrite (previews_split imgs n img Hn Hblob).
  rewrite length_app. unfold preview_position. simpl. lia.
Qed.

Lemma not_previews_delete (imgs : list string) (n : nat) (img : string) :
  imgs !! n = Some img ->
  isBlob img = true ->
  List.filter (fun u => negb (isBlob u)) (delete n imgs)
  = List.filter (fun u => negb (isBlob u)) imgs.
Proof.
  intros Hn Hblob. rewrite delete_take_drop.
  rewrite <- (take_drop_middle imgs n img Hn) at 3.
  rewrite !List.filter_app. cbn [List.filter]. rewrite Hblob. reflexivity.
Qed.

(** C6. Let [index] point at an entry of the image list. If the entry is a
    local preview (and the controller holds one pending file per local
    preview, in order), [removeImage] shortens the image list by exactly
    that entry and the pending files by exactly one: the file at the
    preview's position among the local previews; every entry that is not a
    local preview stays. If the entry is not a local preview (a persisted
    URL), only the image list is shortened, by that entry, and the pending
    files are unchanged. *)
Theorem removeImage_by_index (st : FormState) (index : Z) (img : string) :
  Js.at_index (currentImages st) index = Some img ->
  let n := Z.to_nat index in
  let st' := removeImage index st in
  (isBlob img = true ->
   previews_parallel st ->
   currentImages st' = delete n (currentImages st)
   /\ (length (currentImages st') + 1 = length (currentImages st))%nat
   /\ pendingFiles st'
      = delete (preview_position n (currentImages st)) (pendingFiles st)
   /\ (length (pendingFiles st') + 1 = length (pendingFiles st))%nat
   /\ List.filter (fun u => negb (isBlob u)) (currentImages st')
      = List.filter (fun u => negb (isBlob u)) (currentImages st))
  /\ (isBlob img = false ->
      currentImages st' = delete n (currentImages st)
      /\ (length (currentImages st') + 1 = length (currentImages st))%nat
      /\ pendingFiles st' = pendingFiles st).
Proof.
  intros Hat n st'. pose proof (proj1 (at_index_Some _ _ _) Hat) as [Hpos Hn].
  fold n in Hn.
  assert (Hlen : (length (delete n (currentImages st)) + 1
                  = length (currentImages st))%nat).
  { rewrite length_delete by eauto. apply lookup_lt_Some in Hn. lia. }
  split.
  - intros Hblob [Hnodup Hpar]. subst st'.
    rewrite (removeImage_on_preview st index img Hat Hblob).
    rewrite currentImages_mkForm. cbn [pendingFiles].
    rewrite without_index_in by assumption. fold n.
    unfold localPreviews in *.
    rewrite (indexOf_preview _ n img Hn Hblob Hnodup).
    pose proof (preview_position_lt _ n img Hn Hblob) as Hlt.
    replace (Z.of_nat (preview_position n (currentImages st)) =? -1) with false
      by (symmetry; apply Z.eqb_neq; lia).
    cbn [negb]. rewrite without_index_in by lia. rewrite Nat2Z.id.
    split; [reflexivity|]. split; [assumption|]. split; [reflexivity|].
    split.
    + rewrite length_delete by (apply lookup_lt_is_Some; lia). lia.
    + apply not_previews_delete with (img := img); assumption.
  - intros Hblob. subst st'.
    rewrite (removeImage_on_persisted st index img Hat Hblob).
    unfold setValue_productImages. rewrite currentImages_mkForm. cbn [pendingFiles].
    rewrite without_index_in by assumption. fold n. auto.
Qed.

Lemma editing_parallel : previews_parallel editing.
Proof.
  split; [|reflexivity]. unfold localPreviews. simpl.
  apply NoDup_cons. split; [|apply NoDup_singleton].
  intros H. apply list_elem_of_In in H. destruct H as [H|[]]. discriminate.
Qed.

Lemma removeImage_by_index_witness :
  Js.at_index (currentImages editing) 2 = Some blob2
  /\ isBlob blob2 = true
  /\ previews_parallel editing
  /\ currentImages (removeImage 2 editing) = [blob1; a_jpg]
  /\ pendingFiles (removeImage 2 editing) = [photo1]
  /\ Js.at_index (currentImages editing) 1 = Some a_jpg
  /\ isBlob a_jpg = false
  /\ currentImages (removeImage 1 editing) = [blob1; blob2]
  /\ pendingFiles (removeImage 1 editing) = [photo1; photo2].
Proof.
  split; [reflexivity|]. split; [reflexivity|]. split; [exact editing_parallel|].
  pose proof (proj1 (removeImage_by_index editing 2 blob2 eq_refl)
                eq_refl editing_parallel) as (Himgs & _ & Hpend & _).
  pose proof (proj2 (removeImage_by_index editing 1 a_jpg eq_refl) eq_refl)
    as (Himgs' & _ & Hpend').
  split; [exact Himgs|]. split; [exact Hpend|].
  split; [reflexivity|]. split; [reflexivity|].
  split; [exact Himgs' | exact Hpend'].
Defined.

(** The parallel run of previews and pending files is kept by every
    operation of the controller on them. *)

Lemma previews_parallel_fresh (d : ProductFormData) :
  List.filter isBlob (productImages d) = [] ->
  previews_parallel (mkForm d [] false []).
Proof.
  intros H. unfold previews_parallel, localPreviews, currentImages. cbn [values].
  rewrite H. split; [apply NoDup_nil_2 | reflexivity].
Qed.

Lemma removeImage_keeps_parallel (index : Z) (st : FormState) :
  previews_parallel st -> previews_parallel (removeImage index st).
Proof.
  intros Hinv. destruct (Js.at_index (currentImages st) index) as [img|] eqn:Hat.
  - pose proof (proj1 (at_index_Some _ _ _) Hat) as [Hpos Hn].
    destruct Hinv as [Hnodup Hpar]. unfold localPreviews in *.
    destruct (isBlob img) eqn:Hblob.
    + rewrite (removeImage_on_preview st index img Hat Hblob).
      unfold previews_parallel, localPreviews. rewrite currentImages_mkForm.
      cbn [pendingFiles]. unfold localPreviews.
      rewrite (indexOf_preview _ _ img Hn Hblob Hnodup).
      pose proof (preview_position_lt _ _ img Hn Hblob) as Hlt.
      replace (Z.of_nat (preview_position (Z.to_nat index) (currentImages st)) =? -1)
        with false by (symmetry; apply Z.eqb_neq; lia).
      cbn [negb]. rewrite !without_index_in by lia. rewrite Nat2Z.id.
      rewrite delete_take_drop, List.filter_app.
      rewrite (previews_split _ _ img Hn Hblob) in Hnodup, Hpar, Hlt.
      split.
      * apply NoDup_app in Hnodup. destruct Hnodup as (Hpre & Hdisj & Hpost).
        apply NoDup_cons in Hpost. destruct Hpost as [_ Hpost].
        apply NoDup_app. split; [assumption|]. split; [|assumption].
        intros x Hx Hx'. apply (Hdisj x Hx). right. assumption.
      * rewrite length_delete by (apply lookup_lt_is_Some; lia).
        rewrite Hpar, !length_app. simpl. lia.
    + rewrite (removeImage_on_persisted st index img Hat Hblob).
      unfold previews_parallel, localPreviews, setValue_productImages.
      rewrite currentImages_mkForm. cbn [pendingFiles].
      rewrite without_index_in by lia.
      rewrite delete_take_drop, List.filter_app.
      rewrite <- (take_drop_middle _ _ img Hn) in Hnodup, Hpar.
      rewrite List.filter_app in Hnodup, Hpar. cbn [List.filter] in Hnodup, Hpar.
      rewrite Hblob in Hnodup, Hpar. auto.
  - apply at_index_None in Hat. rewrite removeImage_outside by assumption.
    assumption.
Qed.

Lemma filter_all_true {A} (f : A -> bool) (l : list A) :
  (forall x, In x l -> f x = true) -> List.filter f l = l.
Proof.
  induction l as [|x l IH]; intros H; [reflexivity|]. simpl.
  rewrite (H x) by (left; reflexivity). f_equal. apply IH.
  intros y Hy. apply H. right. assumption.
Qed.

Lemma handleImageSelect_keeps_parallel (createObjectURL : File -> string)
    (files : option (list File)) (st : FormState) :
  (forall newFiles, files = Some newFiles ->
     (forall u, In u (map createObjectURL newFiles) ->
        isBlob u = true /\ ~ In u (currentImages st))
     /\ NoDup (map createObjectURL newFiles)) ->
  previews_parallel st ->
  previews_parallel (handleImageSelect createObjectURL files st).
Proof.
  intros Hfresh [Hnodup Hpar]. destruct files as [newFiles|]; [|split; assumption].
  destruct (Hfresh newFiles eq_refl) as [Hnew Hdistinct].
  unfold handleImageSelect. destruct newFiles as [|f fs]; [split; assumption|].
  cbn [is_empty]. set (newFiles := f :: fs) in *.
  unfold previews_parallel, localPreviews, setValue_productImages, setPendingFiles.
  rewrite currentImages_mkForm. cbn [pendingFiles].
  change (currentImages (mkForm (values st) (pendingFiles st ++ newFiles)
                           (isUploading st) (revoked st)))
    with (currentImages st).
  unfold localPreviews in *. rewrite List.filter_app.
  rewrite (filter_all_true isBlob (map createObjectURL newFiles))
    by (intros u Hu; apply (Hnew u Hu)).
  split.
  - apply NoDup_app. split; [assumption|]. split; [|assumption].
    intros u Hu Hu'. apply list_elem_of_In in Hu, Hu'.
    apply filter_In in Hu. destruct Hu as [Hu _].
    apply (proj2 (Hnew u Hu')). assumption.
  - rewrite !length_app, length_map, Hpar. reflexivity.
Qed.

(** ** Submission: what is sent to the repository *)

Lemma calls_of_app (t1 t2 : list Event) :
  calls_of (t1 ++ t2) = calls_of t1 ++ calls_of t2.
Proof. unfold calls_of. apply omap_app. Qed.

Lemma handleSubmit_calls options st db :
  calls (handleSubmit options st) db =
  calls (uploadAll (pendingFiles st)) db ++
  match outcome (uploadAll (pendingFiles st)) db with
  | Thrown _ => []
  | Returned uploadedUrls =>
      match edit_target options with
      | Some productId =>
          calls (updateProduct productId
                   (set_variants (Some (variants_or_empty (values st)))
                                 (submitted st uploadedUrls))) db
      | None =>
          calls (createProducts (submitted st uploadedUrls)
                                (variants_or_empty (values st))) db
      end
  end.
Proof.
  unfold calls, events, outcome, handleSubmit, submitted.
  unfold updateMutation_mutateAsync, createMutation_mutateAsync. run_async.
  destruct (uploadAll (pendingFiles st) db) as [[uploadedUrls|e] t]; simpl.
  - destruct (edit_target options) as [productId|].
    + destruct (updateProduct productId _ db) as [[product|e] t2]; simpl;
        rewrite !calls_of_app; simpl; rewrite ?app_nil_r; reflexivity.
    + destruct (createProducts _ _ db) as [[product|e] t2]; simpl;
        rewrite !calls_of_app; simpl; rewrite ?app_nil_r; reflexivity.
  - rewrite !calls_of_app. simpl. rewrite app_nil_r. reflexivity.
Qed.








(** ** The list view *)

Lemma sort_insert_perm {A} (cmp : A -> A -> Z) (x : A) (l : list A) :
  sort_insert cmp x l ≡ₚ x :: l.
Proof.
  induction l as [|y l IH]; simpl; [reflexivity|].
  destruct (cmp x y >? 0); [|reflexivity].
  rewrite IH. apply Permutation_swap.
Qed.

Lemma array_sort_perm {A} (cmp : A -> A -> Z) (l : list A) :
  array_sort cmp l ≡ₚ l.
Proof.
  unfold array_sort. induction l as [|x l IH]; simpl; [reflexivity|].
  rewrite sort_insert_perm, IH. reflexivity.
Qed.

(** A comparator that never answers a positive number leaves the array as
    it is. *)
Lemma array_sort_no_positive {A} (cmp : A -> A -> Z) (l : list A) :
  (forall x y, cmp x y <= 0) -> array_sort cmp l = l.
Proof.
  intros H. unfold array_sort. induction l as [|x l IH]; simpl; [reflexivity|].
  rewrite IH. destruct l as [|y l']; simpl; [reflexivity|].
  destruct (Z.gtb_spec (cmp x y) 0) as [Hpos|_]; [|reflexivity].
  specialize (H x y). lia.
Qed.

Lemma filter_filter {A} (f g : A -> bool) (l : list A) :
  List.filter g (List.filter f l) = List.filter (fun x => f x && g x) l.
Proof.
  induction l as [|x l IH]; simpl; [reflexivity|].
  destruct (f x); simpl; [destruct (g x)|]; rewrite IH; reflexivity.
Qed.

Lemma filter_true {A} (l : list A) : List.filter (fun _ => true) l = l.
Proof. induction l as [|x l IH]; simpl; [|rewrite IH]; reflexivity. Qed.

Lemma filter_ext_bool {A} (f g : A -> bool) (l : list A) :
  (forall x, f x = g x) -> List.filter f l = List.filter g l.
Proof.
  intros H. induction l as [|x l IH]; simpl; [reflexivity|].
  rewrite H, IH. reflexivity.
Qed.

Lemma filteredProducts_unfold rt products searchTerm filterCategory sortKey sortAsc :
  filteredProducts rt (Some products) searchTerm filterCategory sortKey sortAsc
  = array_sort (compareFn rt sortKey sortAsc)
      (List.filter (listed rt searchTerm filterCategory) products).
Proof.
  unfold filteredProducts, listed. destruct products as [|p ps]; [reflexivity|].
  cbn [is_empty]. generalize (p :: ps). intros l. f_equal.
  destruct (Js.truthy (trim rt searchTerm));
    destruct (String.eqb filterCategory ALL_TAGS); cbn [negb orb].
  - rewrite <- (filter_true (List.filter _ l)) at 1. apply filter_filter.
  - apply filter_filter.
  - symmetry. apply filter_true.
  - reflexivity.
Qed.

(** C8, as the code has it. The listed products are, up to the order the
    sort gives them, exactly the products of the collection whose
    lower-cased name contains the lower-cased search term and whose tag
    string equals the selected tag; a search term that is blank (empty after
    trimming) bypasses the name test, and the tag selector's option for all
    tags bypasses the tag test. Every listed product is in the collection,
    and the list is never longer than the collection. *)
Theorem filteredProducts_listed rt products searchTerm filterCategory sortKey sortAsc :
  let shown :=
    filteredProducts rt (Some products) searchTerm filterCategory sortKey sortAsc in
  shown ≡ₚ List.filter (listed rt searchTerm filterCategory) products
  /\ (forall p,
        In p shown <->
        In p products
        /\ (trim rt searchTerm <> EmptyString ->
            Js.includes (toLowerCase rt searchTerm) (toLowerCase rt (productName p))
            = true)
        /\ (filterCategory <> ALL_TAGS -> productTags p = filterCategory))
  /\ (forall p, In p shown -> In p products)
  /\ (length shown <= length products)%nat.
Proof.
  intros shown. subst shown. rewrite filteredProducts_unfold.
  pose proof (array_sort_perm (compareFn rt sortKey sortAsc)
                (List.filter (listed rt searchTerm filterCategory) products)) as Hperm.
  assert (Hin : forall p,
             In p (array_sort (compareFn rt sortKey sortAsc)
                     (List.filter (listed rt searchTerm filterCategory) products))
             <-> In p products /\ listed rt searchTerm filterCategory p = true).
  { intros p. rewrite <- filter_In. rewrite <- !list_elem_of_In.
    rewrite Hperm. reflexivity. }
  split; [exact Hperm|]. split; [|split].
  - intros p. rewrite Hin. unfold listed, name_matches, tag_matches.
    rewrite andb_true_iff, !orb_true_iff, negb_true_iff, !String.eqb_eq.
    rewrite <- truthy_spec.
    destruct (String.eqb_spec filterCategory ALL_TAGS);
      destruct (Js.truthy (trim rt searchTerm)); intuition congruence.
  - intros p Hp. apply Hin in Hp. tauto.
  - rewrite Hperm. apply List.filter_length_le.
Qed.

Lemma filteredProducts_listed_witness :
  filteredProducts ascii_runtime (Some catalogue) "CAP" "Headwear" key_id true
  = [stored "p-1" cap]
  /\ In (stored "p-1" cap)
        (filteredProducts ascii_runtime (Some catalogue) "CAP" "Headwear" key_id true)
  /\ In (stored "p-1" cap) catalogue.
Proof.
  split; [reflexivity|].
  assert (Hin : In (stored "p-1" cap)
                  (filteredProducts ascii_runtime (Some catalogue) "CAP" "Headwear"
                     key_id true)) by (left; reflexivity).
  split; [exact Hin|].
  exact (proj1 (proj2 (proj2 (filteredProducts_listed ascii_runtime catalogue
                                "CAP" "Headwear" key_id true)))
           (stored "p-1" cap) Hin).
Defined.

(** C8, as stated, fails: with a blank search term the product stays listed
    although its name does not contain the term. *)
Lemma filteredProducts_blank_search_lists_all :
  Js.includes (ascii_toLowerCase " ") (ascii_toLowerCase (productName hat)) = false
  /\ filteredProducts ascii_runtime (Some [stored "p-3" hat]) " " ALL_TAGS
       key_created_at false
     = [stored "p-3" hat].
Proof. split; reflexivity. Qed.

(** ** Sorting by quantity *)

Lemma compareFn_qty rt sortAsc a b : compareFn rt key_qty sortAsc a b = 0.
Proof. reflexivity. Qed.

(** With the key [qty] the comparator reads a property no product has, so
    it answers 0 on every pair and the sort keeps the order it was given. *)
Lemma filteredProducts_qty_unsorted rt products searchTerm filterCategory sortAsc :
  filteredProducts rt (Some products) searchTerm filterCategory key_qty sortAsc
  = List.filter (listed rt searchTerm filterCategory) products.
Proof.
  rewrite filteredProducts_unfold. apply array_sort_no_positive.
  intros a b. rewrite compareFn_qty. lia.
Qed.

(** C3, at the failing input: sorting by quantity, ascending, two products
    with quantities 5 and 2 leaves them in the order 5, 2. *)
Theorem sort_by_quantity_keeps_input_order :
  map (fun p : Product => inventoryQuantity p)
    (filteredProducts ascii_runtime (Some [stored "p-1" cap; stored "p-2" sock])
       "" ALL_TAGS key_qty true)
  = [5%Q; 2%Q].
Proof. reflexivity. Qed.

(** ** Sorting by an existing key *)

(** For a comparator that is consistent on the elements at hand, the sort
    leaves no element in front of one it should follow. *)
Section SortConsistent.
Context {A : Type} (cmp : A -> A -> Z) (ok : A -> Prop).
Hypothesis cmp_total : forall x y, ok x -> ok y -> cmp x y > 0 -> cmp y x <= 0.
Hypothesis cmp_trans :
  forall x y z, ok x -> ok y -> ok z -> cmp x y <= 0 -> cmp y z <= 0 -> cmp x z <= 0.

Lemma sort_insert_sorted (x : A) (l : list A) :
  ok x -> Forall ok l ->
  StronglySorted (in_order cmp) l -> StronglySorted (in_order cmp) (sort_insert cmp x l).
Proof.
  intros Hx Hl Hs. induction Hs as [|y l Hs IH Hy]; simpl.
  - constructor; constructor.
  - apply Forall_cons in Hl. destruct Hl as [Hoky Hl].
    destruct (Z.gtb_spec (cmp x y) 0) as [Hgt|Hle].
    + constructor; [apply IH; assumption|].
      rewrite sort_insert_perm. constructor; [|assumption].
      apply cmp_total; [assumption..|lia].
    + constructor; [constructor; assumption|].
      constructor; [exact Hle|].
      rewrite Forall_forall in Hy, Hl |- *. intros z Hz.
      apply cmp_trans with (y := y); auto. apply Hy. assumption.
Qed.

Lemma array_sort_sorted (l : list A) :
  Forall ok l -> StronglySorted (in_order cmp) (array_sort cmp l).
Proof.
  unfold array_sort. induction l as [|x l IH]; intros Hl; simpl.
  - constructor.
  - apply Forall_cons in Hl. destruct Hl as [Hx Hl].
    apply sort_insert_sorted; [assumption| |apply IH; assumption].
    fold (array_sort cmp l). rewrite array_sort_perm. assumption.
Qed.

End SortConsistent.

Lemma StronglySorted_impl_elems {A} (R R' : A -> A -> Prop) (l : list A) :
  (forall a b, In a l -> In b l -> R a b -> R' a b) ->
  StronglySorted R l -> StronglySorted R' l.
Proof.
  intros Himpl Hs. induction Hs as [|x l Hs IH Hx]; constructor.
  - apply IH. intros a b Ha Hb. apply Himpl; right; assumption.
  - rewrite Forall_forall in Hx |- *. intros y Hy. pose proof (Hx y Hy) as Hxy.
    apply list_elem_of_In in Hy. apply Himpl; [left; reflexivity | right; assumption | assumption].
Qed.

Lemma string_compare_as_OT (s t : string) :
  String.compare s t = OrdersEx.String_as_OT.compare s t.
Proof.
  revert t. induction s as [|a s IH]; intros [|b t]; reflexivity.
Qed.

Lemma string_compare_spec (s t : string) :
  CompSpec Logic.eq OrdersEx.String_as_OT.lt s t (String.compare s t).
Proof. rewrite string_compare_as_OT. apply OrdersEx.String_as_OT.compare_spec. Qed.

Lemma string_leb_trans (s t u : string) :
  String.leb s t = true -> String.leb t u = true -> String.leb s u = true.
Proof.
  unfold String.leb. intros Hst Htu.
  destruct (string_compare_spec s t) as [Heq|Hlt|Hgt]; [| |discriminate].
  - subst t. assumption.
  - destruct (string_compare_spec t u) as [Heq|Hlt'|Hgt']; [| |discriminate].
    + subst u. destruct (string_compare_spec s t) as [Heq|_|Hgt]; try reflexivity.
      exfalso. apply (StrictOrder_Irreflexive (R := OrdersEx.String_as_OT.lt) s).
      etransitivity; eassumption.
    + destruct (string_compare_spec s u) as [Heq|_|Hgt]; try reflexivity.
      exfalso. apply (StrictOrder_Irreflexive (R := OrdersEx.String_as_OT.lt) s).
      etransitivity; [eassumption|]. etransitivity; eassumption.
Qed.

Lemma string_ltb_leb (s t : string) : String.ltb t s = negb (String.leb s t).
Proof.
  unfold String.ltb, String.leb. rewrite (String.compare_antisym s t).
  destruct (String.compare t s); reflexivity.
Qed.

Lemma compareFn_id rt sortAsc a b :
  compareFn rt key_id sortAsc a b <= 0 <-> id_in_order sortAsc a b.
Proof.
  unfold compareFn, id_in_order, js_gt, js_lt, sort_value, get_property, Js.ltb.
  rewrite (string_ltb_leb (id b) (id a)), (string_ltb_leb (id a) (id b)).
  pose proof (String.leb_total (id a) (id b)) as Htot.
  destruct (String.leb (id a) (id b)) eqn:Hab, (String.leb (id b) (id a)) eqn:Hba,
    sortAsc; simpl; split; intros; try lia; try congruence; destruct Htot; congruence.
Qed.

(** Sorting by identifier arranges the listed products by identifier, in
    the direction asked. *)
Lemma filteredProducts_sorted_by_id rt products searchTerm filterCategory sortAsc :
  StronglySorted (id_in_order sortAsc)
    (filteredProducts rt (Some products) searchTerm filterCategory key_id sortAsc).
Proof.
  rewrite filteredProducts_unfold.
  eapply StronglySorted_impl_elems; [|apply (array_sort_sorted _ (fun _ => True))].
  - intros a b _ _ H. apply compareFn_id in H. exact H.
  - intros x y _ _ H. apply compareFn_id.
    assert (Hnot : ~ compareFn rt key_id sortAsc x y <= 0) by lia.
    rewrite compareFn_id in Hnot. unfold id_in_order in *.
    destruct (String.leb_total (id x) (id y)); destruct sortAsc; tauto.
  - intros x y z _ _ _. rewrite !compareFn_id. unfold id_in_order.
    destruct sortAsc; eauto using string_leb_trans.
  - apply Forall_forall. auto.
Qed.

Lemma compareFn_created_at rt sortAsc a b ta tb :
  Date_getTime rt (created_at a) = Some ta ->
  Date_getTime rt (created_at b) = Some tb ->
  compareFn rt key_created_at sortAsc a b <= 0
  <-> if sortAsc then ta <= tb else tb <= ta.
Proof.
  intros Ha Hb. unfold compareFn, js_gt, js_lt, sort_value. rewrite Ha, Hb.
  destruct (Z.ltb_spec ta tb), (Z.ltb_spec tb ta), sortAsc; lia.
Qed.

(** Sorting by creation time arranges the listed products by their parsed
    timestamps, in the direction asked, when every timestamp parses. *)
Lemma filteredProducts_sorted_by_time rt products searchTerm filterCategory sortAsc :
  (forall p, In p products -> Date_getTime rt (created_at p) <> None) ->
  StronglySorted (time_in_order rt sortAsc)
    (filteredProducts rt (Some products) searchTerm filterCategory
       key_created_at sortAsc).
Proof.
  intros Hparse. rewrite filteredProducts_unfold.
  set (ok := fun p : Product => Date_getTime rt (created_at p) <> None).
  eapply StronglySorted_impl_elems;
    [|apply (array_sort_sorted (compareFn rt key_created_at sortAsc) ok)].
  - intros a b Ha Hb H.
    rewrite <- list_elem_of_In in Ha, Hb. rewrite array_sort_perm in Ha, Hb.
    rewrite list_elem_of_In in Ha, Hb. apply filter_In in Ha, Hb.
    pose proof (Hparse a (proj1 Ha)) as Hta. pose proof (Hparse b (proj1 Hb)) as Htb.
    destruct (Date_getTime rt (created_at a)) as [ta|] eqn:Ea; [|congruence].
    destruct (Date_getTime rt (created_at b)) as [tb|] eqn:Eb; [|congruence].
    exists ta, tb. split; [assumption|]. split; [assumption|].
    apply (compareFn_created_at rt sortAsc a b ta tb Ea Eb). exact H.
  - intros x y Hx Hy. unfold ok in Hx, Hy.
    destruct (Date_getTime rt (created_at x)) as [tx|] eqn:Ex; [|congruence].
    destruct (Date_getTime rt (created_at y)) as [ty|] eqn:Ey; [|congruence].
    pose proof (compareFn_created_at rt sortAsc x y tx ty Ex Ey).
    pose proof (compareFn_created_at rt sortAsc y x ty tx Ey Ex).
    destruct sortAsc; lia.
  - intros x y z Hx Hy Hz. unfold ok in Hx, Hy, Hz.
    destruct (Date_getTime rt (created_at x)) as [tx|] eqn:Ex; [|congruence].
    destruct (Date_getTime rt (created_at y)) as [ty|] eqn:Ey; [|congruence].
    destruct (Date_getTime rt (created_at z)) as [tz|] eqn:Ez; [|congruence].
    rewrite (compareFn_created_at rt sortAsc x y tx ty Ex Ey).
    rewrite (compareFn_created_at rt sortAsc y z ty tz Ey Ez).
    rewrite (compareFn_created_at rt sortAsc x z tx tz Ex Ez).
    destruct sortAsc; lia.
  - apply Forall_forall. intros p Hp. apply list_elem_of_In in Hp.
    apply filter_In in Hp. apply Hparse. tauto.
Qed.

(** Ties keep the order they came in: among elements that the comparator
    never puts behind one another, the sort changes nothing. *)
Lemma sort_insert_stable {A} (cmp : A -> A -> Z) (f : A -> bool) (x : A) (l : list A) :
  (forall y, In y l -> f x = true -> f y = true -> cmp x y <= 0) ->
  List.filter f (sort_insert cmp x l) = List.filter f (x :: l).
Proof.
  induction l as [|y l IH]; intros Htie; [reflexivity|].
  cbn [sort_insert]. destruct (Z.gtb_spec (cmp x y) 0) as [Hgt|Hle]; [|reflexivity].
  cbn [List.filter]. rewrite IH by (intros z Hz; apply Htie; right; assumption).
  cbn [List.filter].
  destruct (f x) eqn:Hx, (f y) eqn:Hy; try reflexivity.
  specialize (Htie y (or_introl eq_refl) eq_refl Hy). lia.
Qed.

Lemma array_sort_stable {A} (cmp : A -> A -> Z) (f : A -> bool) (l : list A) :
  (forall x y, In x l -> In y l -> f x = true -> f y = true -> cmp x y <= 0) ->
  List.filter f (array_sort cmp l) = List.filter f l.
Proof.
  unfold array_sort. induction l as [|x l IH]; intros Htie; [reflexivity|].
  cbn [foldr]. rewrite sort_insert_stable.
  - cbn [List.filter]. rewrite IH; [reflexivity|].
    intros a b Ha Hb. apply Htie; right; assumption.
  - intros y Hy. fold (array_sort cmp l) in Hy.
    rewrite <- list_elem_of_In in Hy. rewrite array_sort_perm in Hy.
    rewrite list_elem_of_In in Hy. apply Htie; [left; reflexivity | right; assumption].
Qed.

(** ** Controller states that can arise *)

Lemma filter_all_false {A} (f : A -> bool) (l : list A) :
  (forall x, In x l -> f x = false) -> List.filter f l = [].
Proof.
  induction l as [|x l IH]; intros H; [reflexivity|]. simpl.
  rewrite (H x) by (left; reflexivity). apply IH.
  intros y Hy. apply H. right. assumption.
Qed.

Lemma reachable_parallel (st : FormState) : reachable st -> previews_parallel st.
Proof.
  induction 1 as [d Hd | createObjectURL files st _ IH Hfresh | index st _ IH].
  - apply previews_parallel_fresh. apply filter_all_false. assumption.
  - apply handleImageSelect_keeps_parallel; assumption.
  - apply removeImage_keeps_parallel. assumption.
Qed.

(** ** The state a sequence of effects leaves *)

Lemma state_after_app (t1 t2 : list Event) (st : FormState) :
  state_after (t1 ++ t2) st = state_after t2 (state_after t1 st).
Proof. unfold state_after. apply fold_left_app. Qed.

(** * Further properties of the repository *)

(** X1. [createProducts] stops at the first insert that fails and throws
    the store's error for it: after a failed product insert no variant row
    is sent; after a failed variant insert the product insert has been sent
    and nothing takes it back, since the function never sends anything but
    these two inserts. It returns a product only when the store answered the
    product insert with it. *)
Theorem createProducts_no_rollback db productData variants :
  (forall e,
      on_products_insert db productData = Failure e ->
      outcome (createProducts productData variants) db = Thrown (PostgrestExn e)
      /\ calls (createProducts productData variants) db
         = [ProductsInsert productData])
  /\ (forall product e,
        on_products_insert db productData = Success product ->
        variants <> [] ->
        on_variants_insert db (map (with_product_id (id product)) variants) = Some e ->
        outcome (createProducts productData variants) db = Thrown (PostgrestExn e)
        /\ calls (createProducts productData variants) db
           = [ProductsInsert productData;
              VariantsInsert (map (with_product_id (id product)) variants)])
  /\ (forall r,
        In r (calls (createProducts productData variants) db) ->
        (exists d, r = ProductsInsert d) \/ (exists rows, r = VariantsInsert rows))
  /\ (forall product,
        outcome (createProducts productData variants) db = Returned product ->
        on_products_insert db productData = Success product).
Proof.
  unfold outcome. rewrite createProducts_calls, createProducts_run. cbv zeta.
  split; [|split; [|split]].
  - intros e ->. split; reflexivity.
  - intros product e -> Hne ->. destruct variants; [contradiction|].
    split; reflexivity.
  - intros r [<-|Hr]; [left; eauto|].
    destruct (on_products_insert db productData) as [product|e]; [|destruct Hr].
    destruct (is_empty variants); [destruct Hr|].
    destruct Hr as [<-|[]]. right. eauto.
  - intros product.
    destruct (on_products_insert db productData) as [p|e]; [|discriminate].
    destruct (is_empty variants); [cbn; congruence|].
    destruct (on_variants_insert db _); cbn; congruence.
Qed.

Lemma createProducts_no_rollback_witness :
  on_products_insert (with_variants_insert (fun _ => Some denied) empty_store) hat
  = Success (stored "p-1" hat)
  /\ outcome (createProducts hat [red])
       (with_variants_insert (fun _ => Some denied) empty_store)
     = Thrown (PostgrestExn denied)
  /\ calls (createProducts hat [red])
       (with_variants_insert (fun _ => Some denied) empty_store)
     = [ProductsInsert hat; VariantsInsert [mkRow None "Red" 5%Q 12%Q "p-1"]].
Proof.
  split; [reflexivity|].
  pose proof (createProducts_no_rollback
                (with_variants_insert (fun _ => Some denied) empty_store) hat [red])
    as (_ & H & _).
  exact (H (stored "p-1" hat) denied eq_refl ltac:(discriminate) eq_refl).
Defined.

Lemma updateProduct_outcome db id productData :
  outcome (updateProduct id productData) db =
  match on_products_update db (rest_without_variants productData) id with
  | Failure e => Thrown (PostgrestExn e)
  | Success updatedProduct =>
      match variants productData with
      | None => Returned updatedProduct
      | Some vs =>
          match on_variants_delete db id with
          | Some e => Thrown (PostgrestExn e)
          | None =>
              if is_empty vs then Returned updatedProduct
              else
                match on_variants_insert db (map (variant_to_insert id) vs) with
                | Some e => Thrown (PostgrestExn e)
                | None => Returned updatedProduct
                end
          end
      end
  end.
Proof.
  unfold outcome. rewrite updateProduct_run. cbv zeta.
  destruct (on_products_update db _ id); [|reflexivity].
  destruct (variants productData) as [vs|]; [|reflexivity].
  destruct (on_variants_delete db id); [reflexivity|].
  destruct (is_empty vs); [reflexivity|].
  destruct (on_variants_insert db _); reflexivity.
Qed.

(** X2. [updateProduct] stops at the first step that fails and throws the
    store's error for it. After a failed update of the product row no
    variant row is touched; after a failed delete of the old variants no
    insert is sent; after a failed insert the old variants have already been
    deleted. It returns a product only when the store answered the update
    with it. *)
Theorem updateProduct_stops_at_first_error db id productData :
  let productFields := rest_without_variants productData in
  let upd := ProductsUpdate productFields id in
  (forall e,
      on_products_update db productFields id = Failure e ->
      outcome (updateProduct id productData) db = Thrown (PostgrestExn e)
      /\ calls (updateProduct id productData) db = [upd])
  /\ (forall updatedProduct vs e,
        on_products_update db productFields id = Success updatedProduct ->
        variants productData = Some vs ->
        on_variants_delete db id = Some e ->
        outcome (updateProduct id productData) db = Thrown (PostgrestExn e)
        /\ calls (updateProduct id productData) db = [upd; VariantsDelete id])
  /\ (forall updatedProduct vs e,
        on_products_update db productFields id = Success updatedProduct ->
        variants productData = Some vs ->
        vs <> [] ->
        on_variants_delete db id = None ->
        on_variants_insert db (map (variant_to_insert id) vs) = Some e ->
        outcome (updateProduct id productData) db = Thrown (PostgrestExn e)
        /\ calls (updateProduct id productData) db
           = [upd; VariantsDelete id; VariantsInsert (map (variant_to_insert id) vs)])
  /\ (forall updatedProduct,
        outcome (updateProduct id productData) db = Returned updatedProduct ->
        on_products_update db productFields id = Success updatedProduct).
Proof.
  intros productFields upd. subst productFields upd.
  rewrite updateProduct_calls, updateProduct_outcome.
  split; [|split; [|split]].
  - intros e ->. split; reflexivity.
  - intros p vs e -> -> ->. split; reflexivity.
  - intros p vs e -> -> Hne -> ->. destruct vs; [contradiction|]. split; reflexivity.
  - intros p. destruct (on_products_update db _ id) as [q|e]; [|discriminate].
    destruct (variants productData) as [vs|]; [|congruence].
    destruct (on_variants_delete db id); [discriminate|].
    destruct (is_empty vs); [congruence|].
    destruct (on_variants_insert db _); [discriminate | congruence].
Qed.

Lemma updateProduct_stops_at_first_error_witness :
  on_products_update (with_variants_delete (fun _ => Some denied) empty_store)
    (rest_without_variants (hat_with [red])) "p-1"
  = Success (stored "p-1" hat)
  /\ outcome (updateProduct "p-1" (hat_with [red]))
       (with_variants_delete (fun _ => Some denied) empty_store)
     = Thrown (PostgrestExn denied)
  /\ calls (updateProduct "p-1" (hat_with [red]))
       (with_variants_delete (fun _ => Some denied) empty_store)
     = [ProductsUpdate hat "p-1"; VariantsDelete "p-1"].
Proof.
  split; [reflexivity|].
  pose proof (updateProduct_stops_at_first_error
                (with_variants_delete (fun _ => Some denied) empty_store)
                "p-1" (hat_with [red])) as (_ & H & _).
  exact (H (stored "p-1" hat) [red] denied eq_refl eq_refl eq_refl).
Defined.

Lemma deleteProduct_outcome db productId :
  outcome (deleteProduct productId) db =
  match on_products_select_images db productId with
  | Failure e => Thrown (ErrorExn (pg_message e))
  | Success _ =>
      match on_products_delete db productId with
      | Some e => Thrown (ErrorExn (pg_message e))
      | None => Returned (mkDeleteResult true)
      end
  end.
Proof.
  unfold outcome. rewrite deleteProduct_run. cbv zeta.
  destruct (on_products_select_images db productId); [|reflexivity].
  destruct (on_products_delete db productId); reflexivity.
Qed.

Lemma deleteProduct_calls db productId :
  calls (deleteProduct productId) db =
  ProductsSelectImages productId ::
  match on_products_select_images db productId with
  | Failure _ => []
  | Success product =>
      ProductsDelete productId ::
      match on_products_delete db productId with
      | Some _ => []
      | None =>
          if is_empty (filePaths_of (images_of product)) then []
          else [StorageRemove (filePaths_of (images_of product))]
      end
  end.
Proof.
  unfold calls, events. rewrite deleteProduct_run. cbv zeta.
  destruct (on_products_select_images db productId) as [product|e]; [|reflexivity].
  destruct (on_products_delete db productId); [reflexivity|]. cbn [snd].
  destruct (images_of product) as [|url imgs] eqn:Himgs; [reflexivity|].
  cbn [is_empty]. destruct (filePaths_of (url :: imgs)) as [|key keys]; [reflexivity|].
  cbn [is_empty]. destruct (on_storage_remove db (key :: keys)); reflexivity.
Qed.

(** X3. [deleteProduct] stops at the first table step that fails: when the
    fetch of the image list fails the product row is not deleted, and when
    the deletion of the row fails no stored image is removed. So a storage
    removal is only ever sent after the row was deleted, and with at least
    one key. What it throws is always a plain [Error] carrying the message
    of the store's error. *)
Theorem deleteProduct_stops_at_first_error db productId :
  (forall e,
      on_products_select_images db productId = Failure e ->
      outcome (deleteProduct productId) db = Thrown (ErrorExn (pg_message e))
      /\ calls (deleteProduct productId) db = [ProductsSelectImages productId])
  /\ (forall product e,
        on_products_select_images db productId = Success product ->
        on_products_delete db productId = Some e ->
        outcome (deleteProduct productId) db = Thrown (ErrorExn (pg_message e))
        /\ calls (deleteProduct productId) db
           = [ProductsSelectImages productId; ProductsDelete productId])
  /\ (forall keys,
        In (StorageRemove keys) (calls (deleteProduct productId) db) ->
        keys <> []
        /\ on_products_delete db productId = None
        /\ outcome (deleteProduct productId) db = Returned (mkDeleteResult true))
  /\ (forall error,
        outcome (deleteProduct productId) db = Thrown error ->
        exists e, error = ErrorExn (pg_message e)).
Proof.
  rewrite deleteProduct_calls, deleteProduct_outcome.
  split; [|split; [|split]].
  - intros e ->. split; reflexivity.
  - intros product e -> ->. split; reflexivity.
  - intros keys [H|H]; [discriminate|].
    destruct (on_products_select_images db productId) as [product|e]; [|destruct H].
    destruct H as [H|H]; [discriminate|].
    destruct (on_products_delete db productId); [destruct H|].
    destruct (filePaths_of (images_of product)) as [|key ks]; [destruct H|].
    destruct H as [H|[]]. inversion H. subst keys. repeat split. discriminate.
  - intros error.
    destruct (on_products_select_images db productId) as [product|e].
    + destruct (on_products_delete db productId) as [e|]; [|discriminate].
      intros H. inversion H. eauto.
    + intros H. inversion H. eauto.
Qed.

Lemma deleteProduct_stops_at_first_error_witness :
  on_products_select_images
    (with_products_delete (fun _ => Some denied) store_failing_removal) "p-1"
  = Success (Some [a_jpg])
  /\ outcome (deleteProduct "p-1")
       (with_products_delete (fun _ => Some denied) store_failing_removal)
     = Thrown (ErrorExn "permission denied for table")
  /\ calls (deleteProduct "p-1")
       (with_products_delete (fun _ => Some denied) store_failing_removal)
     = [ProductsSelectImages "p-1"; ProductsDelete "p-1"].
Proof.
  split; [reflexivity|].
  pose proof (deleteProduct_stops_at_first_error
                (with_products_delete (fun _ => Some denied) store_failing_removal)
                "p-1") as (_ & H & _).
  exact (H (Some [a_jpg]) denied eq_refl eq_refl).
Defined.

Lemma getProducts_run db :
  getProducts db =
  match on_products_select_all db with
  | Success data => (Returned (Some data), [Call ProductsSelectAll])
  | Failure _ => (Returned None, [Call ProductsSelectAll; ConsoleError "獲取商品失敗:"])
  end.
Proof.
  unfold getProducts. run_async. destruct (on_products_select_all db); reflexivity.
Qed.

(** X4. [getProducts] sends one read and never fails. When the store
    reports an error it logs it and returns null, and the list view then
    shows no row and offers no tag, whatever its state; when the store
    answers with rows, these rows are what the list view works on. *)
Theorem getProducts_error_shows_nothing db rt s :
  calls getProducts db = [ProductsSelectAll]
  /\ (forall e,
        on_products_select_all db = Failure e ->
        outcome getProducts db = Returned None
        /\ In (ConsoleError "獲取商品失敗:") (events getProducts db)
        /\ forall data,
            outcome getProducts db = Returned data ->
            listing rt data s = [] /\ tagOptions data = [])
  /\ (forall rows,
        on_products_select_all db = Success rows ->
        outcome getProducts db = Returned (Some rows)
        /\ forall p, In p (listing rt (Some rows) s) -> In p rows).
Proof.
  unfold calls, events, outcome. rewrite getProducts_run.
  split; [|split].
  - destruct (on_products_select_all db); reflexivity.
  - intros e ->. cbn. split; [reflexivity|]. split; [auto|].
    intros data H. inversion H. split; reflexivity.
  - intros rows ->. split; [reflexivity|].
    intros p Hp. unfold listing in Hp. rewrite filteredProducts_unfold in Hp.
    rewrite <- list_elem_of_In in Hp. rewrite array_sort_perm in Hp.
    rewrite list_elem_of_In in Hp. apply filter_In in Hp. tauto.
Qed.

Lemma getProducts_error_shows_nothing_witness :
  on_products_select_all (with_products_select_all (Failure denied) empty_store)
  = Failure denied
  /\ outcome getProducts (with_products_select_all (Failure denied) empty_store)
     = Returned None.
Proof.
  split; [reflexivity|].
  pose proof (getProducts_error_shows_nothing
                (with_products_select_all (Failure denied) empty_store)
                ascii_runtime initialListState) as (_ & H & _).
  exact (proj1 (H denied eq_refl)).
Defined.

(** ** Uploading an image *)

Lemma uploadProductImage_run file db :
  uploadProductImage file db =
  let filePath := filePath_of db file in
  let up := Call (StorageUpload filePath file) in
  let failed := [ConsoleError "圖片上傳失敗:"; ToastError "圖片上傳失敗，請重試"] in
  match on_storage_upload db filePath file with
  | Some e => (Thrown (StorageExn e), up :: failed)
  | None =>
      let ask := Call (StorageGetPublicUrl filePath) in
      match on_storage_public_url db filePath with
      | Some publicUrl =>
          if Js.truthy publicUrl
          then (Returned publicUrl, [up; ask; ConsoleLog "上傳成功:"])
          else (Thrown (ErrorExn "無法取得圖片 URL"), up :: ask :: failed)
      | None => (Thrown (ErrorExn "無法取得圖片 URL"), up :: ask :: failed)
      end
  end.
Proof.
  unfold uploadProductImage, filePath_of. run_async.
  destruct (on_storage_upload db _ file); [reflexivity|]. simpl.
  destruct (on_storage_public_url db _) as [publicUrl|]; [|reflexivity].
  destruct (Js.truthy publicUrl); reflexivity.
Qed.

(** X5. [uploadProductImage] returns a URL exactly when the store accepted
    the upload and then gave a non-empty public URL for the very key the
    file was written to, and the URL returned is that one. The upload is its
    first request; the public URL is asked for only after a successful
    upload; no table is written. A refused upload is thrown as the store's
    error. *)
Theorem uploadProductImage_returns_public_url file db :
  let filePath := filePath_of db file in
  (forall url,
      outcome (uploadProductImage file) db = Returned url
      <-> on_storage_upload db filePath file = None
          /\ on_storage_public_url db filePath = Some url
          /\ url <> EmptyString)
  /\ (exists rest,
        calls (uploadProductImage file) db = StorageUpload filePath file :: rest
        /\ (rest = [] \/ rest = [StorageGetPublicUrl filePath])
        /\ (rest <> [] <-> on_storage_upload db filePath file = None))
  /\ (forall r, In r (calls (uploadProductImage file) db) -> is_table_write r = false)
  /\ (forall e,
        on_storage_upload db filePath file = Some e ->
        outcome (uploadProductImage file) db = Thrown (StorageExn e)).
Proof.
  intros filePath. unfold calls, events, outcome. rewrite uploadProductImage_run.
  cbv zeta. fold filePath.
  destruct (on_storage_upload db filePath file) as [e|].
  - split; [|split; [|split]].
    + intros url. split; [discriminate | intros [H _]; discriminate].
    + exists []. split; [reflexivity|]. split; [left; reflexivity|].
      split; [congruence | discriminate].
    + intros r [<-|[]]. reflexivity.
    + intros e' H. inversion H. reflexivity.
  - destruct (on_storage_public_url db filePath) as [publicUrl|].
    + destruct (Js.truthy publicUrl) eqn:Ht.
      * split; [|split; [|split]].
        -- intros url. cbn. split.
           ++ intros H. inversion H. subst url. apply truthy_spec in Ht. auto.
           ++ intros (_ & H & _). congruence.
        -- eexists. split; [reflexivity|]. split; [right; reflexivity|].
           split; [reflexivity | discriminate].
        -- intros r [<-|[<-|[]]]; reflexivity.
        -- discriminate.
      * split; [|split; [|split]].
        -- intros url. cbn. split; [discriminate|].
           intros (_ & H & Hne). inversion H. subst url.
           apply truthy_spec in Hne. congruence.
        -- eexists. split; [reflexivity|]. split; [right; reflexivity|].
           split; [reflexivity | discriminate].
        -- intros r [<-|[<-|[]]]; reflexivity.
        -- discriminate.
    + split; [|split; [|split]].
      * intros url. cbn. split; [discriminate | intros (_ & H & _); discriminate].
      * eexists. split; [reflexivity|]. split; [right; reflexivity|].
        split; [reflexivity | discriminate].
      * intros r [<-|[<-|[]]]; reflexivity.
      * discriminate.
Qed.

Lemma uploadProductImage_returns_public_url_witness :
  on_storage_upload (with_storage_upload (fun _ _ => Some quota) empty_store)
    (filePath_of (with_storage_upload (fun _ _ => Some quota) empty_store) photo1)
    photo1
  = Some quota
  /\ outcome (uploadProductImage photo1)
       (with_storage_upload (fun _ _ => Some quota) empty_store)
     = Thrown (StorageExn quota)
  /\ outcome (uploadProductImage photo1) empty_store = Returned new_url.
Proof.
  split; [reflexivity|].
  pose proof (uploadProductImage_returns_public_url photo1
                (with_storage_upload (fun _ _ => Some quota) empty_store))
    as (_ & _ & _ & Hfail).
  pose proof (uploadProductImage_returns_public_url photo1 empty_store)
    as (Hret & _).
  split; [exact (Hfail quota eq_refl)|].
  apply (proj2 (Hret new_url)).
  split; [reflexivity|]. split; [reflexivity | discriminate].
Defined.

(** ** The file extension *)

Lemma append_assoc (s t u : string) : (s +:+ t) +:+ u = s +:+ (t +:+ u).
Proof.
  induction s as [|c s IH]; [reflexivity|].
  rewrite !append_String, IH. reflexivity.
Qed.

Lemma append_Empty_r (s : string) : s +:+ EmptyString = s.
Proof.
  induction s as [|c s IH]; [reflexivity|]. rewrite append_String, IH. reflexivity.
Qed.

Lemma has_char_append c (s t : string) :
  has_char c (s +:+ t) = has_char c s || has_char c t.
Proof.
  induction s as [|d s IH]; [reflexivity|].
  rewrite append_String. cbn [has_char]. rewrite IH. apply orb_assoc.
Qed.

Lemma last_segment_acc (s acc : string) :
  has_char "." acc = false ->
  has_char "." (last_segment acc s) = false
  /\ (has_char "." s = false -> last_segment acc s = acc +:+ s)
  /\ (has_char "." s = true ->
      exists pre, acc +:+ s = pre +:+ "." +:+ last_segment acc s).
Proof.
  revert acc. induction s as [|c s IH]; intros acc Hacc.
  - cbn [last_segment has_char]. split; [assumption|].
    split; [intros _; symmetry; apply append_Empty_r | discriminate].
  - cbn [last_segment has_char].
    destruct (Ascii.eqb_spec c ".") as [->|Hne].
    + rewrite Ascii.eqb_refl. cbn [orb].
      destruct (IH EmptyString eq_refl) as (Hno & Hnodot & Hdot).
      split; [assumption|]. split; [discriminate|]. intros _.
      destruct (has_char "." s) eqn:Hs.
      * destruct (Hdot eq_refl) as [pre Hpre]. rewrite append_Empty in Hpre.
        exists (acc +:+ "." +:+ pre). rewrite Hpre at 1.
        rewrite !append_assoc. reflexivity.
      * rewrite (Hnodot eq_refl), append_Empty. exists acc. reflexivity.
    + assert (Hc : Ascii.eqb "." c = false).
      { apply Ascii.eqb_neq. congruence. }
      rewrite Hc. cbn [orb].
      assert (Hacc' : has_char "." (acc +:+ String c EmptyString) = false).
      { rewrite has_char_append, Hacc. cbn [has_char]. rewrite Hc. reflexivity. }
      destruct (IH _ Hacc') as (Hno & Hnodot & Hdot).
      assert (Happ : (acc +:+ String c EmptyString) +:+ s = acc +:+ String c s).
      { rewrite append_assoc. reflexivity. }
      rewrite Happ in Hnodot, Hdot. auto.
Qed.

(** X6. The extension [uploadProductImage] gives a stored image is what
    follows the last dot of the file's name: it holds no dot, and the name
    is some prefix, a dot, and the extension. A name without a dot is its
    own extension. *)
Theorem fileExt_follows_last_dot (name : string) :
  let fileExt := last_segment EmptyString name in
  has_char "." fileExt = false
  /\ (has_char "." name = false -> fileExt = name)
  /\ (has_char "." name = true -> exists pre, name = pre +:+ "." +:+ fileExt).
Proof.
  intros fileExt. subst fileExt.
  destruct (last_segment_acc name EmptyString eq_refl) as (Hno & Hnodot & Hdot).
  rewrite append_Empty in Hnodot, Hdot. auto.
Qed.

Lemma fileExt_follows_last_dot_witness :
  has_char "." "archive.tar.gz" = true
  /\ last_segment EmptyString "archive.tar.gz" = "gz"
  /\ has_char "." "README" = false
  /\ last_segment EmptyString "README" = "README"
  /\ exists pre, "archive.tar.gz" = pre +:+ "." +:+ last_segment EmptyString "archive.tar.gz".
Proof.
  split; [reflexivity|]. split; [reflexivity|]. split; [reflexivity|].
  pose proof (fileExt_follows_last_dot "archive.tar.gz") as (_ & _ & Hdot).
  pose proof (fileExt_follows_last_dot "README") as (_ & Hnodot & _).
  split; [exact (Hnodot eq_refl) | exact (Hdot eq_refl)].
Defined.

(** ** From a public URL back to the storage key *)

Lemma append_split_prefix (s1 t1 s2 t2 : string) :
  s1 +:+ t1 = s2 +:+ t2 ->
  (String.length s2 <= String.length s1)%nat ->
  exists m, s1 = s2 +:+ m.
Proof.
  revert s1. induction s2 as [|c s2 IH]; intros s1 Heq Hlen.
  - exists s1. reflexivity.
  - destruct s1 as [|d s1]; [simpl in Hlen; lia|].
    rewrite !append_String in Heq. inversion Heq. subst d.
    destruct (IH s1) as [m ->]; [assumption | simpl in Hlen; lia|].
    exists m. reflexivity.
Qed.

Lemma bucket_literal_no_overlap (n : nat) :
  (0 < n < 13)%nat -> String.get n "productImage/" <> Some "p"%char.
Proof.
  intros [Hpos Hlt].
  do 13 (destruct n as [|n]; [first [lia | cbn; discriminate]|]). lia.
Qed.

Lemma no_match_inside_base (base key : string) :
  base <> EmptyString ->
  Js.includes "productImage/" base = false ->
  Js.afterPrefix "productImage/" (base +:+ "productImage/" +:+ key) = None.
Proof.
  intros Hne Hnot.
  destruct (Js.afterPrefix "productImage/" (base +:+ "productImage/" +:+ key))
    as [rest|] eqn:Hpre; [exfalso | reflexivity].
  apply afterPrefix_spec in Hpre.
  destruct (le_lt_dec 13 (String.length base)) as [Hlong|Hshort].
  - destruct (append_split_prefix _ _ _ _ Hpre Hlong) as [m Hm].
    assert (Hin : Js.includes "productImage/" base = true).
    { apply includes_spec. exists EmptyString, m. exact Hm. }
    congruence.
  - assert (Hpos : (0 < String.length base)%nat).
    { destruct base; [congruence | simpl; lia]. }
    apply (bucket_literal_no_overlap (String.length base)); [lia|].
    rewrite (String.append_correct1 "productImage/" rest (String.length base))
      by (simpl; lia).
    fold ("productImage/" +:+ rest). rewrite <- Hpre.
    change (String.length base) with (0 + String.length base)%nat.
    rewrite <- (String.append_correct2 base ("productImage/" +:+ key) 0).
    reflexivity.
Qed.

Lemma includes_tail (p : string) (c : ascii) (s : string) :
  Js.includes p (String c s) = false -> Js.includes p s = false.
Proof.
  cbn [Js.includes]. intros H. apply orb_false_iff in H. tauto.
Qed.

Lemma match_bucket_key_exact (base key : string) :
  Js.includes "productImage/" base = false ->
  key <> EmptyString ->
  Js.hasLineTerminator key = false ->
  match_bucket_key (base +:+ "productImage/" +:+ key) = Some key.
Proof.
  intros Hbase Hne Hline. induction base as [|c base IH].
  - rewrite append_Empty.
    assert (Hpre : Js.afterPrefix "productImage/" ("productImage/" +:+ key) = Some key)
      by (apply afterPrefix_spec; reflexivity).
    assert (Hok : Js.truthy key && negb (Js.hasLineTerminator key) = true).
    { rewrite Hline. apply andb_true_iff. split; [apply truthy_spec; assumption | reflexivity]. }
    change ("productImage/" +:+ key) with (String "p" ("roductImage/" +:+ key)) in *.
    cbn [match_bucket_key]. rewrite Hpre, Hok. reflexivity.
  - pose proof (no_match_inside_base (String c base) key ltac:(discriminate) Hbase)
      as Hnone.
    rewrite append_String in *. cbn [match_bucket_key]. rewrite Hnone.
    apply IH. apply includes_tail with (c := c). assumption.
Qed.

(** X7. A public URL made of a base that does not mention the bucket, the
    bucket name with its slash, and a key (non-empty, on one line) gives
    back exactly that key: the key is everything after the first
    [productImage/], also when the key itself mentions the bucket again. A
    URL that does not mention the bucket gives no key. *)
Theorem match_bucket_key_recovers_key (base key : string) :
  Js.includes "productImage/" base = false ->
  (key <> EmptyString ->
   Js.hasLineTerminator key = false ->
   match_bucket_key (base +:+ "productImage/" +:+ key) = Some key
   /\ filePaths_of [base +:+ "productImage/" +:+ key] = [key])
  /\ match_bucket_key base = None
  /\ filePaths_of [base] = [].
Proof.
  intros Hbase.
  assert (Hnone : match_bucket_key base = None).
  { destruct (match_bucket_key base) as [k|] eqn:Hk; [|reflexivity].
    destruct (match_bucket_key_sound _ _ Hk) as (_ & _ & pre & Hpre).
    assert (Hin : Js.includes "productImage/" base = true).
    { apply includes_spec. exists pre, k. exact Hpre. }
    congruence. }
  split; [|split; [assumption|]].
  - intros Hne Hline.
    pose proof (match_bucket_key_exact base key Hbase Hne Hline) as Hkey.
    split; [assumption|]. unfold filePaths_of. cbn [map omap]. rewrite Hkey.
    apply truthy_spec in Hne. cbn. rewrite Hne. reflexivity.
  - unfold filePaths_of. cbn [map]. rewrite Hnone. reflexivity.
Qed.

Lemma match_bucket_key_recovers_key_witness :
  Js.includes "productImage/" "https://xxx.supabase.co/storage/v1/object/public/" = false
  /\ match_bucket_key a_jpg = Some "products/a.jpg".
Proof.
  split; [reflexivity|].
  pose proof (match_bucket_key_recovers_key
                "https://xxx.supabase.co/storage/v1/object/public/" "products/a.jpg"
                eq_refl) as (H & _).
  exact (proj1 (H ltac:(discriminate) eq_refl)).
Defined.

(** ** The upload phase of a submission *)

Lemma uploadProductImage_outcome_Returned file db url :
  outcome (uploadProductImage file) db = Returned url
  <-> on_storage_upload db (filePath_of db file) file = None
      /\ on_storage_public_url db (filePath_of db file) = Some url
      /\ url <> EmptyString.
Proof.
  unfold outcome. rewrite uploadProductImage_run. cbv zeta.
  destruct (on_storage_upload db _ file) as [e|].
  - split; [discriminate | intros [H _]; discriminate].
  - destruct (on_storage_public_url db _) as [publicUrl|].
    + destruct (Js.truthy publicUrl) eqn:Ht; cbn.
      * split; [intros H; inversion H; subst url; apply truthy_spec in Ht; auto|].
        intros (_ & H & _). congruence.
      * split; [discriminate|]. intros (_ & H & Hne). inversion H. subst url.
        apply truthy_spec in Hne. congruence.
    + split; [discriminate | intros (_ & H & _); discriminate].
Qed.

Lemma uploadProductImage_calls file db :
  uploaded_files (calls (uploadProductImage file) db) = [file]
  /\ forall r, In r (calls (uploadProductImage file) db) -> is_table_write r = false.
Proof.
  unfold calls, events. rewrite uploadProductImage_run. cbv zeta.
  destruct (on_storage_upload db _ file) as [e|].
  - split; [reflexivity | intros r [<-|[]]; reflexivity].
  - destruct (on_storage_public_url db _) as [publicUrl|];
      [destruct (Js.truthy publicUrl)|];
      (split; [reflexivity | intros r [<-|[<-|[]]]; reflexivity]).
Qed.

Lemma uploaded_files_app (rs1 rs2 : list Request) :
  uploaded_files (rs1 ++ rs2) = uploaded_files rs1 ++ uploaded_files rs2.
Proof. unfold uploaded_files. apply omap_app. Qed.

Lemma promise_all_uploads (files : list File) db :
  uploaded_files (calls (promise_all (map uploadProductImage files)) db) = files
  /\ (forall r, In r (calls (promise_all (map uploadProductImage files)) db) ->
        is_table_write r = false)
  /\ (forall urls,
        outcome (promise_all (map uploadProductImage files)) db = Returned urls
        <-> Forall2 (fun f url => outcome (uploadProductImage f) db = Returned url)
              files urls).
Proof.
  unfold calls, events, outcome.
  induction files as [|f files (IHc & IHw & IHr)]; cbn [map promise_all].
  - split; [reflexivity|]. split; [intros r []|].
    intros urls. cbn. split.
    + intros H. inversion H. constructor.
    + intros H. inversion H. reflexivity.
  - pose proof (uploadProductImage_calls f db) as [Hc Hw].
    unfold calls, events in Hc, Hw. unfold outcome.
    destruct (uploadProductImage f db) as [r t] eqn:Hup.
    destruct (promise_all (map uploadProductImage files) db) as [rs ts].
    cbn [fst snd] in *. rewrite calls_of_app, uploaded_files_app, Hc, IHc.
    split; [reflexivity|]. split.
    + intros q Hq. apply in_app_or in Hq. destruct Hq; auto.
    + intros urls. destruct r as [url|e].
      * destruct rs as [l|e].
        -- split.
           ++ intros H. inversion H. constructor; [rewrite Hup; reflexivity|].
              apply IHr. reflexivity.
           ++ intros H. inversion H as [|? u ? us Hu Hus]. subst.
              rewrite Hup in Hu. cbn in Hu. inversion Hu. apply IHr in Hus. congruence.
        -- split; [discriminate|].
           intros H. inversion H as [|? u ? us Hu Hus]. subst.
           apply IHr in Hus. discriminate.
      * split; [discriminate|].
        intros H. inversion H as [|? u ? us Hu Hus]. rewrite Hup in Hu. discriminate.
Qed.

(** X9. The upload phase of a submission sends one upload per pending
    file, in the order of the files, whatever the store answers to any of
    them, and writes no table. It yields URLs only when every single upload
    yields one, and then one URL per file, in order; so one refused upload
    fails the whole phase. *)
Theorem uploadAll_one_upload_per_file (files : list File) db :
  uploaded_files (calls (uploadAll files) db) = files
  /\ (forall r, In r (calls (uploadAll files) db) -> is_table_write r = false)
  /\ (forall urls,
        outcome (uploadAll files) db = Returned urls
        <-> Forall2 (fun f url => outcome (uploadProductImage f) db = Returned url)
              files urls)
  /\ (forall urls,
        outcome (uploadAll files) db = Returned urls ->
        length urls = length files)
  /\ (forall f e,
        In f files ->
        on_storage_upload db (filePath_of db f) f = Some e ->
        exists error, outcome (uploadAll files) db = Thrown error).
Proof.
  assert (H : uploaded_files (calls (uploadAll files) db) = files
              /\ (forall r, In r (calls (uploadAll files) db) -> is_table_write r = false)
              /\ (forall urls,
                    outcome (uploadAll files) db = Returned urls
                    <-> Forall2 (fun f url =>
                                   outcome (uploadProductImage f) db = Returned url)
                          files urls)).
  { unfold uploadAll. destruct files as [|f files].
    - cbn. split; [reflexivity|]. split; [intros r []|].
      intros urls. split; intros H; inversion H; [constructor | reflexivity].
    - cbn [is_empty]. apply promise_all_uploads. }
  destruct H as (Hc & Hw & Hr).
  split; [assumption|]. split; [assumption|]. split; [assumption|]. split.
  - intros urls Hu. apply Hr in Hu. apply Forall2_length in Hu. congruence.
  - intros f e Hf He.
    destruct (outcome (uploadAll files) db) as [urls|error] eqn:Hout; [|eauto].
    exfalso. pose proof (proj1 (Hr urls) eq_refl) as HF.
    apply list_elem_of_In, list_elem_of_lookup in Hf. destruct Hf as [i Hi].
    destruct (Forall2_lookup_l _ _ _ i f HF Hi) as (url & _ & Hurl).
    apply uploadProductImage_outcome_Returned in Hurl. destruct Hurl. congruence.
Qed.

Lemma uploadAll_one_upload_per_file_witness :
  outcome (uploadAll [photo1; photo2]) empty_store
  = Returned [new_url;
              "https://xxx.supabase.co/storage/v1/object/public/productImage/products/1700000000000-k3j9x.jpg"]
  /\ length ([new_url;
              "https://xxx.supabase.co/storage/v1/object/public/productImage/products/1700000000000-k3j9x.jpg"])
     = length [photo1; photo2]
  /\ In photo2 [photo1; photo2]
  /\ exists error,
      outcome (uploadAll [photo1; photo2])
        (with_storage_upload (fun _ _ => Some quota) empty_store)
      = Thrown error.
Proof.
  pose proof (uploadAll_one_upload_per_file [photo1; photo2] empty_store)
    as (_ & _ & _ & Hlen & _).
  pose proof (uploadAll_one_upload_per_file [photo1; photo2]
                (with_storage_upload (fun _ _ => Some quota) empty_store))
    as (_ & _ & _ & _ & Hfail).
  split; [reflexivity|]. split; [exact (Hlen _ eq_refl)|].
  split; [right; left; reflexivity|].
  exact (Hfail photo2 quota ltac:(right; left; reflexivity) eq_refl).
Defined.

Lemma uploadAll_outcome_Returned (files : list File) db urls :
  outcome (uploadAll files) db = Returned urls
  <-> Forall2 (fun f url => outcome (uploadProductImage f) db = Returned url)
        files urls.
Proof.
  unfold uploadAll. destruct files as [|f files].
  - cbn. split; intros H; inversion H; [constructor | reflexivity].
  - cbn [is_empty]. apply promise_all_uploads.
Qed.

Lemma filePaths_of_cons (url : string) (urls : list string) :
  filePaths_of (url :: urls) =
  match match_bucket_key url with
  | Some key => key :: filePaths_of urls
  | None => filePaths_of urls
  end.
Proof.
  unfold filePaths_of. cbn [map].
  destruct (match_bucket_key url) as [key|] eqn:Hkey; [|reflexivity].
  destruct (match_bucket_key_sound _ _ Hkey) as (Hne & _).
  apply truthy_spec in Hne. cbn. rewrite Hne. reflexivity.
Qed.

(** X8. A later deletion removes the keys as the public URLs spell them.
    When the store's public URL of each uploaded file is a base (not
    mentioning the bucket), the bucket name and some spelling of the file's
    key (not empty, on one line), the URLs a successful upload phase returns
    lead back, one by one and in order, to these spellings, and deleting a
    product that holds these URLs asks to remove exactly them, in one request
    after the row is deleted. So the uploaded objects are the ones removed
    when every URL spells its key as it was written; and a key that no URL
    spells as written (one of its characters is escaped in the URL) is not
    among those asked to be removed. *)
Theorem deletion_removes_keys_as_urls_spell_them (base : string)
    (spelled : File -> string) (files : list File) db (urls : list string) :
  Js.includes "productImage/" base = false ->
  (forall f, In f files ->
     on_storage_public_url db (filePath_of db f)
     = Some (base +:+ "productImage/" +:+ spelled f)
     /\ spelled f <> EmptyString
     /\ Js.hasLineTerminator (spelled f) = false) ->
  outcome (uploadAll files) db = Returned urls ->
  urls = map (fun f => base +:+ "productImage/" +:+ spelled f) files
  /\ filePaths_of urls = map spelled files
  /\ (forall db' productId,
        on_products_select_images db' productId = Success (Some urls) ->
        on_products_delete db' productId = None ->
        files <> [] ->
        calls (deleteProduct productId) db'
        = [ProductsSelectImages productId; ProductsDelete productId;
           StorageRemove (map spelled files)])
  /\ ((forall f, In f files -> spelled f = filePath_of db f) ->
      filePaths_of urls = map (filePath_of db) files)
  /\ (forall f, In f files ->
        (forall g, In g files -> spelled g <> filePath_of db f) ->
        ~ In (filePath_of db f) (filePaths_of urls)).
Proof.
  intros Hbase Hurl Hup. apply uploadAll_outcome_Returned in Hup.
  assert (Hurls : urls = map (fun f => base +:+ "productImage/" +:+ spelled f) files).
  { induction Hup as [|f url files urls Hf _ IH]; [reflexivity|].
    apply uploadProductImage_outcome_Returned in Hf. destruct Hf as (_ & Hf & _).
    destruct (Hurl f (or_introl eq_refl)) as (Hspelled & _).
    rewrite Hspelled in Hf. cbn [map]. f_equal; [congruence|].
    apply IH. intros g Hg. apply Hurl. right. assumption. }
  assert (Hkeys : filePaths_of urls = map spelled files).
  { rewrite Hurls. clear Hup Hurls. induction files as [|f files IH]; [reflexivity|].
    cbn [map]. rewrite filePaths_of_cons.
    destruct (Hurl f (or_introl eq_refl)) as (_ & Hne & Hline).
    rewrite (match_bucket_key_exact base (spelled f) Hbase Hne Hline).
    f_equal. apply IH. intros g Hg. apply Hurl. right. assumption. }
  split; [assumption|]. split; [assumption|]. split.
  - intros db' productId Hsel Hdel Hne.
    rewrite deleteProduct_calls, Hsel, Hdel. cbn [images_of]. rewrite Hkeys.
    destruct files as [|f files]; [contradiction|]. reflexivity.
  - split.
    + intros Hsame. rewrite Hkeys. apply map_ext_in. assumption.
    + intros f _ Hother Hin. rewrite Hkeys in Hin. apply in_map_iff in Hin.
      destruct Hin as (g & Hg & Hgin). exact (Hother g Hgin Hg).
Qed.

Lemma deletion_removes_keys_as_urls_spell_them_witness :
  Js.includes "productImage/" "https://xxx.supabase.co/storage/v1/object/public/" = false
  /\ outcome (uploadAll [photo1]) empty_store = Returned [new_url]
  /\ filePath_of empty_store photo1 = "products/1700000000000-k3j9x.png"
  /\ calls (deleteProduct "p-1") (store empty_tables (Some [new_url]) None)
     = [ProductsSelectImages "p-1"; ProductsDelete "p-1";
        StorageRemove ["products/1700000000000-k3j9x.png"]]
  /\ filePath_of escaping_store scan = "products/1700000000000-k3j9x.scan 1"
  /\ outcome (uploadAll [scan]) escaping_store
     = Returned ["https://xxx.supabase.co/storage/v1/object/public/productImage/products/1700000000000-k3j9x.scan%201"]
  /\ calls (deleteProduct "p-1")
       (store empty_tables
          (Some ["https://xxx.supabase.co/storage/v1/object/public/productImage/products/1700000000000-k3j9x.scan%201"])
          None)
     = [ProductsSelectImages "p-1"; ProductsDelete "p-1";
        StorageRemove ["products/1700000000000-k3j9x.scan%201"]]
  /\ ~ In (filePath_of escaping_store scan)
          (filePaths_of
             ["https://xxx.supabase.co/storage/v1/object/public/productImage/products/1700000000000-k3j9x.scan%201"]).
Proof.
  assert (Hup : outcome (uploadAll [photo1]) empty_store = Returned [new_url])
    by reflexivity.
  assert (Hup' : outcome (uploadAll [scan]) escaping_store
                 = Returned ["https://xxx.supabase.co/storage/v1/object/public/productImage/products/1700000000000-k3j9x.scan%201"])
    by reflexivity.
  pose proof (deletion_removes_keys_as_urls_spell_them
                "https://xxx.supabase.co/storage/v1/object/public/"
                (filePath_of empty_store) [photo1] empty_store [new_url] eq_refl
                ltac:(intros f [<-|[]]; split; [reflexivity|split; [discriminate|reflexivity]])
                Hup) as (_ & _ & Hdel & _).
  pose proof (deletion_removes_keys_as_urls_spell_them
                "https://xxx.supabase.co/storage/v1/object/public/"
                (fun f => percent_spaces (filePath_of escaping_store f)) [scan]
                escaping_store _ eq_refl
                ltac:(intros f [<-|[]]; split; [reflexivity|split; [discriminate|reflexivity]])
                Hup') as (_ & _ & Hdel' & _ & Hleft).
  split; [reflexivity|]. split; [exact Hup|]. split; [reflexivity|].
  split; [exact (Hdel (store empty_tables (Some [new_url]) None) "p-1"
                   eq_refl eq_refl ltac:(discriminate))|].
  split; [reflexivity|]. split; [exact Hup'|].
  split; [exact (Hdel' (store empty_tables (Some _) None) "p-1"
                   eq_refl eq_refl ltac:(discriminate))|].
  apply (Hleft scan (or_introl eq_refl)). intros g [<-|[]]. discriminate.
Defined.

(** * Further properties of the form controller *)

Lemma handleSubmit_run options st db :
  handleSubmit options st db =
  (Returned tt,
   SetIsUploading true ::
   events (uploadAll (pendingFiles st)) db ++
   match outcome (uploadAll (pendingFiles st)) db with
   | Thrown _ => [ConsoleError "提交失敗:"]
   | Returned uploadedUrls =>
       events (dispatched options st uploadedUrls) db ++
       match outcome (dispatched options st uploadedUrls) db with
       | Returned _ =>
           match edit_target options with
           | Some productId =>
               [InvalidateQueries ["products"];
                InvalidateQueries ["product"; productId];
                SetPendingFiles []; ToastSuccess "商品更新成功"; Navigate "/products"]
           | None =>
               [InvalidateQueries ["products"];
                SetPendingFiles []; ToastSuccess "商品建立成功"; Navigate "/products"]
           end
       | Thrown _ =>
           match edit_target options with
           | Some _ =>
               [ConsoleError "更新商品失敗:"; ToastError "更新商品失敗";
                ConsoleError "提交失敗:"]
           | None =>
               [ConsoleError "建立商品失敗:"; ToastError "建立商品失敗";
                ConsoleError "提交失敗:"]
           end
       end
   end ++ [SetIsUploading false]).
Proof.
  unfold handleSubmit, dispatched, submitted, events, outcome.
  unfold updateMutation_mutateAsync, createMutation_mutateAsync. run_async.
  destruct (uploadAll (pendingFiles st) db) as [[uploadedUrls|e] t]; cbn [fst snd].
  - destruct (edit_target options) as [productId|].
    + destruct (updateProduct productId _ db) as [[product|e] t2]; cbn [fst snd];
        cbn; rewrite <- ?app_assoc; reflexivity.
    + destruct (createProducts _ _ db) as [[product|e] t2]; cbn [fst snd];
        cbn; rewrite <- ?app_assoc; reflexivity.
  - cbn. rewrite <- ?app_assoc. reflexivity.
Qed.

Lemma createProducts_repo_events productData variants db :
  Forall repo_event (events (createProducts productData variants) db).
Proof.
  unfold events. rewrite createProducts_run. cbv zeta.
  destruct (on_products_insert db productData); [|repeat constructor].
  destruct (is_empty variants); [repeat constructor|].
  destruct (on_variants_insert db _); repeat constructor.
Qed.

Lemma updateProduct_repo_events id productData db :
  Forall repo_event (events (updateProduct id productData) db).
Proof.
  unfold events. rewrite updateProduct_run. cbv zeta.
  destruct (on_products_update db _ id); [|repeat constructor].
  destruct (variants productData) as [vs|]; [|repeat constructor].
  destruct (on_variants_delete db id); [repeat constructor|].
  destruct (is_empty vs); [repeat constructor|].
  destruct (on_variants_insert db _); repeat constructor.
Qed.

Lemma uploadProductImage_repo_events file db :
  Forall repo_event (events (uploadProductImage file) db).
Proof.
  unfold events. rewrite uploadProductImage_run. cbv zeta.
  destruct (on_storage_upload db _ file); [repeat constructor|].
  destruct (on_storage_public_url db _) as [u|]; [destruct (Js.truthy u)|];
    repeat constructor.
Qed.

Lemma uploadAll_repo_events files db :
  Forall repo_event (events (uploadAll files) db).
Proof.
  unfold uploadAll, events. destruct files as [|f0 files0]; [constructor|].
  cbn [is_empty]. generalize (f0 :: files0). clear. intros files.
  induction files as [|f files IH]; cbn [map promise_all]; [constructor|].
  pose proof (uploadProductImage_repo_events f db) as Hf. unfold events in Hf.
  destruct (uploadProductImage f db) as [r t].
  destruct (promise_all (map uploadProductImage files) db) as [rs ts].
  cbn [snd] in *. apply Forall_app. split; assumption.
Qed.

Lemma dispatched_repo_events options st uploadedUrls db :
  Forall repo_event (events (dispatched options st uploadedUrls) db).
Proof.
  unfold dispatched. destruct (edit_target options);
    [apply updateProduct_repo_events | apply createProducts_repo_events].
Qed.

Lemma state_after_repo (t : list Event) (st : FormState) :
  Forall repo_event t -> state_after t st = st.
Proof.
  unfold state_after. intros H. revert st.
  induction H as [|ev t Hev _ IH]; intros st; [reflexivity|].
  cbn [fold_left]. rewrite <- (IH st) at 2. f_equal.
  destruct ev; cbn in Hev; try contradiction; reflexivity.
Qed.

Lemma repo_event_In (t : list Event) (ev : Event) :
  Forall repo_event t -> In ev t -> repo_event ev.
Proof. intros H Hin. rewrite List.Forall_forall in H. auto. Qed.

Lemma upload_flag_settings_app (t1 t2 : list Event) :
  upload_flag_settings (t1 ++ t2)
  = upload_flag_settings t1 ++ upload_flag_settings t2.
Proof. unfold upload_flag_settings. apply omap_app. Qed.

Lemma upload_flag_settings_repo (t : list Event) :
  Forall repo_event t -> upload_flag_settings t = [].
Proof.
  induction 1 as [|ev t Hev _ IH]; [reflexivity|].
  unfold upload_flag_settings in *. cbn. rewrite IH.
  destruct ev; cbn in Hev; try contradiction; reflexivity.
Qed.

(** X14. Whatever happens to the uploads and to the write, [handleSubmit]
    does not throw. Its first effect raises the upload flag; the flag is set
    twice in all, raised and then lowered, whatever the uploads and the
    repository do in between; and it is down in the state the submission
    leaves, whatever it was before. *)
Theorem handleSubmit_settles options st db :
  outcome (handleSubmit options st) db = Returned tt
  /\ (exists t, events (handleSubmit options st) db = SetIsUploading true :: t)
  /\ upload_flag_settings (events (handleSubmit options st) db) = [true; false]
  /\ isUploading (state_after (events (handleSubmit options st) db) st) = false.
Proof.
  pose proof (uploadAll_repo_events (pendingFiles st) db) as Hup.
  unfold outcome, events at 1 2 3. rewrite handleSubmit_run. cbn [fst snd].
  split; [reflexivity|]. split; [eexists; reflexivity|].
  split.
  - change (SetIsUploading true :: ?t) with ([SetIsUploading true] ++ t).
    rewrite !upload_flag_settings_app, (upload_flag_settings_repo _ Hup).
    destruct (outcome (uploadAll (pendingFiles st)) db) as [uploadedUrls|e];
      [|reflexivity].
    rewrite upload_flag_settings_app,
      (upload_flag_settings_repo _ (dispatched_repo_events options st uploadedUrls db)).
    destruct (outcome (dispatched options st uploadedUrls) db),
      (edit_target options); reflexivity.
  - rewrite app_comm_cons, app_assoc, state_after_app. reflexivity.
Qed.

Lemma uploadAll_failed_toasts files db error :
  outcome (uploadAll files) db = Thrown error ->
  In (ToastError "圖片上傳失敗，請重試") (events (uploadAll files) db).
Proof.
  unfold uploadAll, outcome, events. destruct files as [|f0 files0]; [discriminate|].
  cbn [is_empty]. generalize (f0 :: files0). clear. intros files.
  induction files as [|f files IH]; cbn [map promise_all]; [discriminate|].
  pose proof (uploadProductImage_run f db) as Hrun. cbv zeta in Hrun.
  destruct (uploadProductImage f db) as [r t].
  destruct (promise_all (map uploadProductImage files) db) as [rs ts].
  cbn [fst snd] in *. intros H. apply in_or_app.
  destruct r as [url|e].
  - right. apply IH. destruct rs; [discriminate | reflexivity || (inversion H; reflexivity)].
  - left. destruct (on_storage_upload db _ f).
    + inversion Hrun. right. right. left. reflexivity.
    + destruct (on_storage_public_url db _) as [u|]; [destruct (Js.truthy u)|];
        inversion Hrun; right; right; right; left; reflexivity.
Qed.

(** X10. No partial commit. When an upload of a submission fails, the
    submission writes nothing to the tables, keeps the pending files and the
    form values as they were for a retry, does not navigate away, and ends
    with the upload flag lowered; the failure is shown by the upload's error
    toast and logged. *)
Theorem handleSubmit_upload_failure_writes_nothing options st db error :
  outcome (uploadAll (pendingFiles st)) db = Thrown error ->
  let after := state_after (events (handleSubmit options st) db) st in
  (forall r, In r (calls (handleSubmit options st) db) -> is_table_write r = false)
  /\ pendingFiles after = pendingFiles st
  /\ values after = values st
  /\ isUploading after = false
  /\ (forall to, ~ In (Navigate to) (events (handleSubmit options st) db))
  /\ In (ToastError "圖片上傳失敗，請重試") (events (handleSubmit options st) db)
  /\ In (ConsoleError "提交失敗:") (events (handleSubmit options st) db).
Proof.
  intros Hup after. subst after.
  pose proof (uploadAll_repo_events (pendingFiles st) db) as Hrepo.
  pose proof (uploadAll_failed_toasts _ _ _ Hup) as Htoast.
  assert (Hw : forall r, In r (calls (uploadAll (pendingFiles st)) db) ->
                         is_table_write r = false).
  { unfold uploadAll. destruct (pendingFiles st) as [|f fs]; [intros r []|].
    cbn [is_empty]. apply promise_all_uploads. }
  split.
  - rewrite handleSubmit_calls, Hup, app_nil_r. exact Hw.
  - unfold events at 1 2 3 4 5 6. rewrite handleSubmit_run, Hup. cbn [snd].
    set (tu := events (uploadAll (pendingFiles st)) db) in *.
    change (SetIsUploading true :: tu ++ [ConsoleError "提交失敗:"] ++ [SetIsUploading false])
      with ([SetIsUploading true] ++ tu ++ [ConsoleError "提交失敗:"; SetIsUploading false]).
    rewrite !state_after_app, (state_after_repo tu) by assumption.
    split; [reflexivity|]. split; [reflexivity|]. split; [reflexivity|].
    split; [|split].
    + intros to H. cbn [app] in H. destruct H as [H|H]; [discriminate|].
      apply in_app_or in H. destruct H as [H|[H|[H|[]]]]; try discriminate.
      apply (repo_event_In _ _ Hrepo) in H. exact H.
    + cbn [app]. right. apply in_or_app. left. assumption.
    + cbn [app]. right. apply in_or_app. right. left. reflexivity.
Qed.

Lemma handleSubmit_upload_failure_writes_nothing_witness :
  outcome (uploadAll (pendingFiles creating))
    (with_storage_upload (fun _ _ => Some quota) empty_store)
  = Thrown (StorageExn quota)
  /\ calls (handleSubmit default_options creating)
       (with_storage_upload (fun _ _ => Some quota) empty_store)
     = [StorageUpload "products/1700000000000-k3j9x.png" photo1]
  /\ pendingFiles
       (state_after
          (events (handleSubmit default_options creating)
             (with_storage_upload (fun _ _ => Some quota) empty_store))
          creating)
     = [photo1].
Proof.
  assert (Hup : outcome (uploadAll (pendingFiles creating))
                  (with_storage_upload (fun _ _ => Some quota) empty_store)
                = Thrown (StorageExn quota)) by reflexivity.
  pose proof (handleSubmit_upload_failure_writes_nothing default_options creating
                (with_storage_upload (fun _ _ => Some quota) empty_store)
                (StorageExn quota) Hup) as (_ & Hpending & _).
  split; [exact Hup|]. split; [reflexivity | exact Hpending].
Defined.

Lemma submission_events options st db uploadedUrls :
  outcome (uploadAll (pendingFiles st)) db = Returned uploadedUrls ->
  exists tail,
    events (handleSubmit options st) db
    = [SetIsUploading true]
      ++ events (uploadAll (pendingFiles st)) db
      ++ events (dispatched options st uploadedUrls) db
      ++ tail ++ [SetIsUploading false]
    /\ tail =
       match outcome (dispatched options st uploadedUrls) db with
       | Returned _ =>
           match edit_target options with
           | Some productId =>
               [InvalidateQueries ["products"];
                InvalidateQueries ["product"; productId];
                SetPendingFiles []; ToastSuccess "商品更新成功"; Navigate "/products"]
           | None =>
               [InvalidateQueries ["products"];
                SetPendingFiles []; ToastSuccess "商品建立成功"; Navigate "/products"]
           end
       | Thrown _ =>
           match edit_target options with
           | Some _ =>
               [ConsoleError "更新商品失敗:"; ToastError "更新商品失敗";
                ConsoleError "提交失敗:"]
           | None =>
               [ConsoleError "建立商品失敗:"; ToastError "建立商品失敗";
                ConsoleError "提交失敗:"]
           end
       end.
Proof.
  intros Hup. eexists. split; [|reflexivity].
  unfold events at 1. rewrite handleSubmit_run, Hup. cbn [snd app].
  rewrite <- !app_assoc. reflexivity.
Qed.

Lemma In_submission_tail (ev a b : Event) (tu td tail : list Event) :
  In ev tail -> In ev ([a] ++ tu ++ td ++ tail ++ [b]).
Proof.
  intros H. apply in_or_app. right. apply in_or_app. right.
  apply in_or_app. right. apply in_or_app. left. assumption.
Qed.

(** X11. Once the uploads of a submission are in, the repository write
    decides how it ends. If the write succeeds, the pending files are
    cleared, the cached product list is invalidated and the user is sent to
    the list. If the write fails, the pending files and the form values stay
    as they were for a retry, nothing is invalidated, the user stays on the
    form, and the failure is logged. Either way the upload flag ends
    lowered. *)
Theorem handleSubmit_write_decides options st db uploadedUrls :
  outcome (uploadAll (pendingFiles st)) db = Returned uploadedUrls ->
  let t := events (handleSubmit options st) db in
  (forall product,
      outcome (dispatched options st uploadedUrls) db = Returned product ->
      pendingFiles (state_after t st) = []
      /\ values (state_after t st) = values st
      /\ isUploading (state_after t st) = false
      /\ In (InvalidateQueries ["products"]) t
      /\ In (Navigate "/products") t)
  /\ (forall error,
        outcome (dispatched options st uploadedUrls) db = Thrown error ->
        pendingFiles (state_after t st) = pendingFiles st
        /\ values (state_after t st) = values st
        /\ isUploading (state_after t st) = false
        /\ (forall queryKey, ~ In (InvalidateQueries queryKey) t)
        /\ (forall to, ~ In (Navigate to) t)
        /\ In (ConsoleError "提交失敗:") t).
Proof.
  intros Hup t. subst t.
  destruct (submission_events options st db uploadedUrls Hup) as (tail & -> & Htail).
  pose proof (uploadAll_repo_events (pendingFiles st) db) as Hu.
  pose proof (dispatched_repo_events options st uploadedUrls db) as Hd.
  set (tu := events (uploadAll (pendingFiles st)) db) in *.
  set (td := events (dispatched options st uploadedUrls) db) in *.
  rewrite !state_after_app, (state_after_repo tu), (state_after_repo td) by assumption.
  split.
  - intros product Hw. rewrite Hw in Htail.
    destruct (edit_target options) as [productId|]; subst tail;
      (split; [reflexivity|]; split; [reflexivity|]; split; [reflexivity|];
       split; apply In_submission_tail; cbn; tauto).
  - intros error Hw. rewrite Hw in Htail.
    assert (Hrepo : Forall repo_event tail).
    { destruct (edit_target options); subst tail; repeat constructor. }
    assert (Hlog : In (ConsoleError "提交失敗:") tail).
    { destruct (edit_target options); subst tail; cbn; tauto. }
    assert (Hall : Forall repo_event (tu ++ td ++ tail)).
    { apply Forall_app. split; [assumption|]. apply Forall_app. split; assumption. }
    rewrite (state_after_repo tail) by assumption.
    split; [reflexivity|]. split; [reflexivity|]. split; [reflexivity|].
    assert (Hin : forall ev,
               In ev ([SetIsUploading true] ++ tu ++ td ++ tail ++ [SetIsUploading false]) ->
               repo_event ev \/ exists b, ev = SetIsUploading b).
    { intros ev H. cbn [app] in H. destruct H as [<-|H]; [right; eauto|].
      rewrite !app_assoc in H. apply in_app_or in H. destruct H as [H|[<-|[]]].
      - left. rewrite <- !app_assoc in H. apply (repo_event_In _ _ Hall H).
      - right. eauto. }
    split; [|split].
    + intros queryKey H. apply Hin in H. destruct H as [H|[b H]]; [exact H | discriminate].
    + intros to H. apply Hin in H. destruct H as [H|[b H]]; [exact H | discriminate].
    + apply In_submission_tail. assumption.
Qed.

Lemma handleSubmit_write_decides_witness :
  outcome (uploadAll (pendingFiles creating)) empty_store = Returned [new_url]
  /\ pendingFiles
       (state_after (events (handleSubmit default_options creating) empty_store)
          creating)
     = []
  /\ pendingFiles
       (state_after
          (events (handleSubmit default_options creating)
             (with_products_insert (fun _ => Failure denied) empty_store))
          creating)
     = [photo1].
Proof.
  assert (Hup : outcome (uploadAll (pendingFiles creating)) empty_store
                = Returned [new_url]) by reflexivity.
  assert (Hup' : outcome (uploadAll (pendingFiles creating))
                   (with_products_insert (fun _ => Failure denied) empty_store)
                 = Returned [new_url]) by reflexivity.
  pose proof (handleSubmit_write_decides default_options creating empty_store
                [new_url] Hup) as (Hok & _).
  pose proof (handleSubmit_write_decides default_options creating
                (with_products_insert (fun _ => Failure denied) empty_store)
                [new_url] Hup') as (_ & Hfail).
  split; [exact Hup|].
  split; [exact (proj1 (Hok _ eq_refl)) | exact (proj1 (Hfail _ eq_refl))].
Defined.

Lemma submission_calls options st db uploadedUrls :
  outcome (uploadAll (pendingFiles st)) db = Returned uploadedUrls ->
  calls (handleSubmit options st) db
  = calls (uploadAll (pendingFiles st)) db
    ++ calls (dispatched options st uploadedUrls) db.
Proof.
  intros Hup. rewrite handleSubmit_calls, Hup. unfold dispatched.
  destruct (edit_target options); reflexivity.
Qed.

Lemma uploadAll_no_table_write files db r :
  In r (calls (uploadAll files) db) -> is_table_write r = false.
Proof.
  unfold uploadAll. destruct files as [|f fs]; [intros []|].
  cbn [is_empty]. apply promise_all_uploads.
Qed.

Lemma submitted_has_no_variants st uploadedUrls vs :
  rest_without_variants (set_variants vs (submitted st uploadedUrls))
  = submitted st uploadedUrls.
Proof. reflexivity. Qed.

Lemma edit_target_spec options target :
  edit_target options = Some target
  <-> mode options = edit
      /\ productId options = Some target
      /\ target <> EmptyString.
Proof.
  unfold edit_target. destruct (mode options), (productId options) as [p|];
    try (split; [discriminate | intros (H1 & H2 & _); discriminate]).
  destruct (Js.truthy p) eqn:Ht.
  - apply truthy_spec in Ht. split.
    + intros H. inversion H. subst. auto.
    + intros (_ & H & _). exact H.
  - split; [discriminate|]. intros (_ & H & Hne). inversion H. subst.
    apply truthy_spec in Hne. congruence.
Qed.

Lemma updateProduct_calls_shape id productData db r :
  In r (calls (updateProduct id productData) db) ->
  r = ProductsUpdate (rest_without_variants productData) id
  \/ r = VariantsDelete id
  \/ exists rows, r = VariantsInsert rows.
Proof.
  rewrite updateProduct_calls. intros [<-|H]; [auto|].
  destruct (on_products_update db _ id); [|destruct H].
  destruct (variants productData) as [vs|]; [|destruct H].
  destruct H as [<-|H]; [auto|].
  destruct (on_variants_delete db id); [destruct H|].
  destruct (is_empty vs); [destruct H|]. destruct H as [<-|[]]. eauto.
Qed.

Lemma createProducts_calls_shape productData variants db r :
  In r (calls (createProducts productData variants) db) ->
  r = ProductsInsert productData \/ exists rows, r = VariantsInsert rows.
Proof.
  rewrite createProducts_calls. intros [<-|H]; [auto|].
  destruct (on_products_insert db productData); [|destruct H].
  destruct (is_empty variants); [destruct H|]. destruct H as [<-|[]]. eauto.
Qed.

(** X12. A submission updates only in edit mode with a non-empty product
    identifier; in every other case, also in edit mode when the identifier
    is missing or empty, it creates a product. With the uploads in, an
    updating submission sends the update of the product row under that
    identifier and never a product insert; a creating submission sends the
    product insert and never an update or a delete of variants. The row sent
    carries the reconciled image list and no variants key. *)
Theorem handleSubmit_dispatch options st db uploadedUrls :
  outcome (uploadAll (pendingFiles st)) db = Returned uploadedUrls ->
  let sent := submitted st uploadedUrls in
  productImages sent = allImageUrls (currentImages st) uploadedUrls
  /\ variants sent = None
  /\ (forall target,
        edit_target options = Some target
        <-> mode options = edit
            /\ productId options = Some target
            /\ target <> EmptyString)
  /\ (forall target,
        edit_target options = Some target ->
        In (ProductsUpdate sent target) (calls (handleSubmit options st) db)
        /\ forall d, ~ In (ProductsInsert d) (calls (handleSubmit options st) db))
  /\ (edit_target options = None ->
      In (ProductsInsert sent) (calls (handleSubmit options st) db)
      /\ (forall d target,
            ~ In (ProductsUpdate d target) (calls (handleSubmit options st) db))
      /\ (forall target,
            ~ In (VariantsDelete target) (calls (handleSubmit options st) db)))
  /\ (mode options = edit ->
      productId options = None \/ productId options = Some EmptyString ->
      In (ProductsInsert sent) (calls (handleSubmit options st) db)).
Proof.
  intros Hup sent. rewrite (submission_calls options st db uploadedUrls Hup).
  assert (Hcreate : edit_target options = None ->
                    In (ProductsInsert sent)
                       (calls (uploadAll (pendingFiles st)) db
                        ++ calls (dispatched options st uploadedUrls) db)).
  { intros Hnone. apply in_or_app. right. unfold dispatched. rewrite Hnone.
    rewrite createProducts_calls. left. reflexivity. }
  split; [reflexivity|]. split; [reflexivity|].
  split; [apply edit_target_spec|]. split; [|split].
  - intros target Htarget. unfold dispatched. rewrite Htarget. split.
    + apply in_or_app. right. rewrite updateProduct_calls. left. reflexivity.
    + intros d H. apply in_app_or in H. destruct H as [H|H].
      * apply uploadAll_no_table_write in H. discriminate.
      * apply updateProduct_calls_shape in H.
        destruct H as [H|[H|[rows H]]]; discriminate.
  - intros Hnone. split; [auto|]. unfold dispatched. rewrite Hnone. split.
    + intros d target H. apply in_app_or in H. destruct H as [H|H].
      * apply uploadAll_no_table_write in H. discriminate.
      * apply createProducts_calls_shape in H. destruct H as [H|[rows H]]; discriminate.
    + intros target H. apply in_app_or in H. destruct H as [H|H].
      * apply uploadAll_no_table_write in H. discriminate.
      * apply createProducts_calls_shape in H. destruct H as [H|[rows H]]; discriminate.
  - intros Hmode Hid. apply Hcreate. unfold edit_target. rewrite Hmode.
    destruct Hid as [-> | ->]; reflexivity.
Qed.

Lemma handleSubmit_dispatch_witness :
  outcome (uploadAll (pendingFiles creating)) empty_store = Returned [new_url]
  /\ mode (mkOptions edit (Some EmptyString)) = edit
  /\ In (ProductsInsert (submitted creating [new_url]))
        (calls (handleSubmit (mkOptions edit (Some EmptyString)) creating) empty_store)
  /\ In (ProductsUpdate (submitted creating [new_url]) "p-1")
        (calls (handleSubmit (mkOptions edit (Some "p-1")) creating) empty_store).
Proof.
  assert (Hup : outcome (uploadAll (pendingFiles creating)) empty_store
                = Returned [new_url]) by reflexivity.
  pose proof (handleSubmit_dispatch (mkOptions edit (Some EmptyString)) creating
                empty_store [new_url] Hup) as (_ & _ & _ & _ & _ & Hempty).
  pose proof (handleSubmit_dispatch (mkOptions edit (Some "p-1")) creating
                empty_store [new_url] Hup) as (_ & _ & _ & Hedit & _).
  split; [exact Hup|]. split; [reflexivity|].
  split; [exact (Hempty eq_refl (or_intror eq_refl))|].
  exact (proj1 (Hedit "p-1" eq_refl)).
Defined.

(** X13. An edit submission always carries a variant list, the form's or an
    empty one. So once the uploads are in and the update of the product row
    succeeds, the old variants of the product are always deleted; when the
    form has no variants (none, or the field absent) nothing is inserted
    after that, and otherwise, the delete succeeding, the form's variants
    are inserted, rebuilt without their identifiers. *)
Theorem edit_submission_replaces_variants options st db uploadedUrls target
    updatedProduct :
  outcome (uploadAll (pendingFiles st)) db = Returned uploadedUrls ->
  edit_target options = Some target ->
  on_products_update db (submitted st uploadedUrls) target = Success updatedProduct ->
  let rs := calls (handleSubmit options st) db in
  In (VariantsDelete target) rs
  /\ (variants (values st) = None \/ variants (values st) = Some [] ->
      forall rows, ~ In (VariantsInsert rows) rs)
  /\ (forall vs,
        variants (values st) = Some vs ->
        vs <> [] ->
        on_variants_delete db target = None ->
        In (VariantsInsert (map (variant_to_insert target) vs)) rs
        /\ forall rows, In (VariantsInsert rows) rs ->
                        rows = map (variant_to_insert target) vs).
Proof.
  intros Hup Htarget Hupd rs. subst rs.
  rewrite (submission_calls options st db uploadedUrls Hup).
  unfold dispatched. rewrite Htarget.
  assert (Hcalls : forall r,
             In r (calls (uploadAll (pendingFiles st)) db
                   ++ calls (updateProduct target
                               (set_variants (Some (variants_or_empty (values st)))
                                             (submitted st uploadedUrls))) db)
             <-> In r (calls (uploadAll (pendingFiles st)) db)
                 \/ In r (ProductsUpdate (submitted st uploadedUrls) target
                          :: VariantsDelete target
                          :: match on_variants_delete db target with
                             | Some _ => []
                             | None =>
                                 if is_empty (variants_or_empty (values st)) then []
                                 else [VariantsInsert
                                         (map (variant_to_insert target)
                                              (variants_or_empty (values st)))]
                             end)).
  { intros r. rewrite in_app_iff, updateProduct_calls.
    rewrite submitted_has_no_variants, Hupd. reflexivity. }
  split; [|split].
  - apply Hcalls. right. right. left. reflexivity.
  - intros Hnone rows H. apply Hcalls in H. destruct H as [H|H].
    + apply uploadAll_no_table_write in H. discriminate.
    + assert (Hvs : variants_or_empty (values st) = []).
      { unfold variants_or_empty. destruct Hnone as [-> | ->]; reflexivity. }
      rewrite Hvs in H. destruct H as [H|[H|H]]; try discriminate.
      destruct (on_variants_delete db target); destruct H.
  - intros vs Hvs Hne Hdel.
    assert (Hvs' : variants_or_empty (values st) = vs).
    { unfold variants_or_empty. rewrite Hvs. reflexivity. }
    split.
    + apply Hcalls. right. rewrite Hdel, Hvs'.
      destruct vs; [contradiction|]. right. right. left. reflexivity.
    + intros rows H. apply Hcalls in H. destruct H as [H|H].
      * apply uploadAll_no_table_write in H. discriminate.
      * rewrite Hdel, Hvs' in H. destruct vs; [contradiction|].
        destruct H as [H|[H|[H|[]]]]; try discriminate. inversion H. reflexivity.
Qed.

Lemma edit_submission_replaces_variants_witness :
  outcome (uploadAll (pendingFiles creating)) empty_store = Returned [new_url]
  /\ edit_target (mkOptions edit (Some "p-1")) = Some "p-1"
  /\ variants (values creating) = None
  /\ In (VariantsDelete "p-1")
        (calls (handleSubmit (mkOptions edit (Some "p-1")) creating) empty_store)
  /\ forall rows,
      ~ In (VariantsInsert rows)
          (calls (handleSubmit (mkOptions edit (Some "p-1")) creating) empty_store).
Proof.
  assert (Hup : outcome (uploadAll (pendingFiles creating)) empty_store
                = Returned [new_url]) by reflexivity.
  pose proof (edit_submission_replaces_variants (mkOptions edit (Some "p-1"))
                creating empty_store [new_url] "p-1" _ Hup eq_refl eq_refl)
    as (Hdel & Hnone & _).
  split; [exact Hup|]. split; [reflexivity|]. split; [reflexivity|].
  split; [exact Hdel | exact (Hnone (or_introl eq_refl))].
Defined.

Lemma error_toasts_app (t1 t2 : list Event) :
  error_toasts (t1 ++ t2) = error_toasts t1 ++ error_toasts t2.
Proof. unfold error_toasts. apply omap_app. Qed.

Lemma uploadAll_success_no_toast files db urls :
  outcome (uploadAll files) db = Returned urls ->
  error_toasts (events (uploadAll files) db) = [].
Proof.
  unfold uploadAll, outcome, events. destruct files as [|f0 files0]; [reflexivity|].
  cbn [is_empty]. generalize (f0 :: files0). clear. intros files. revert urls.
  induction files as [|f files IH]; intros urls; cbn [map promise_all]; [reflexivity|].
  pose proof (uploadProductImage_run f db) as Hrun. cbv zeta in Hrun.
  destruct (uploadProductImage f db) as [r t].
  destruct (promise_all (map uploadProductImage files) db) as [rs ts].
  cbn [fst snd] in *. intros H.
  destruct r as [url|e]; [|discriminate]. destruct rs as [l|e]; [|discriminate].
  rewrite error_toasts_app, (IH l eq_refl), app_nil_r.
  destruct (on_storage_upload db _ f); [discriminate|].
  destruct (on_storage_public_url db _) as [u|]; [destruct (Js.truthy u)|];
    inversion Hrun. reflexivity.
Qed.

Lemma createProducts_no_toast productData variants db :
  error_toasts (events (createProducts productData variants) db) = [].
Proof.
  unfold events. rewrite createProducts_run. cbv zeta.
  destruct (on_products_insert db productData); [|reflexivity].
  destruct (is_empty variants); [reflexivity|].
  destruct (on_variants_insert db _); reflexivity.
Qed.

Lemma updateProduct_one_toast id productData db error :
  outcome (updateProduct id productData) db = Thrown error ->
  error_toasts (events (updateProduct id productData) db) = ["更新商品失敗"]
  \/ error_toasts (events (updateProduct id productData) db) = ["更新變體失敗"].
Proof.
  unfold outcome, events. rewrite updateProduct_run. cbv zeta.
  destruct (on_products_update db _ id); [|auto].
  destruct (variants productData) as [vs|]; [|discriminate].
  destruct (on_variants_delete db id); [auto|].
  destruct (is_empty vs); [discriminate|].
  destruct (on_variants_insert db _); [auto | discriminate].
Qed.

(** X15. The error toasts of a submission whose uploads succeeded and whose
    write failed: a failed creation shows one, from the form; a failed
    update shows two, the repository's own (for the product row or for the
    variants) followed by the form's. *)
Theorem failed_write_error_toasts options st db uploadedUrls error :
  outcome (uploadAll (pendingFiles st)) db = Returned uploadedUrls ->
  outcome (dispatched options st uploadedUrls) db = Thrown error ->
  let shown := error_toasts (events (handleSubmit options st) db) in
  (edit_target options = None -> shown = ["建立商品失敗"])
  /\ (forall target,
        edit_target options = Some target ->
        shown = ["更新商品失敗"; "更新商品失敗"]
        \/ shown = ["更新變體失敗"; "更新商品失敗"]).
Proof.
  intros Hup Hw shown. subst shown.
  destruct (submission_events options st db uploadedUrls Hup) as (tail & -> & Htail).
  rewrite Hw in Htail. rewrite !error_toasts_app.
  rewrite (uploadAll_success_no_toast _ _ _ Hup).
  unfold dispatched in *. split.
  - intros Hnone. rewrite Hnone in *. rewrite createProducts_no_toast. subst tail.
    reflexivity.
  - intros target Htarget. rewrite Htarget in *. subst tail.
    destruct (updateProduct_one_toast _ _ _ _ Hw) as [-> | ->]; [left | right];
      reflexivity.
Qed.

Lemma failed_write_error_toasts_witness :
  outcome (uploadAll (pendingFiles creating))
    (with_products_update (fun _ _ => Failure denied) empty_store)
  = Returned [new_url]
  /\ outcome (dispatched (mkOptions edit (Some "p-1")) creating [new_url])
       (with_products_update (fun _ _ => Failure denied) empty_store)
     = Thrown (PostgrestExn denied)
  /\ error_toasts
       (events (handleSubmit (mkOptions edit (Some "p-1")) creating)
          (with_products_update (fun _ _ => Failure denied) empty_store))
     = ["更新商品失敗"; "更新商品失敗"].
Proof.
  split; [reflexivity|]. split; [reflexivity|].
  pose proof (failed_write_error_toasts (mkOptions edit (Some "p-1")) creating
                (with_products_update (fun _ _ => Failure denied) empty_store)
                [new_url] (PostgrestExn denied) eq_refl eq_refl) as (_ & H).
  destruct (H "p-1" eq_refl) as [H1|H1]; [exact H1 | discriminate H1].
Defined.

(** ** Sessions of the form *)





Lemma set_productImages_same (d : ProductFormData) :
  set_productImages (productImages d) d = d.
Proof. destruct d. reflexivity. Qed.

Lemma lookup_app_last {A} (l : list A) (x : A) : (l ++ [x]) !! length l = Some x.
Proof. induction l as [|y l IH]; [reflexivity | exact IH]. Qed.

Lemma delete_app_last {A} (l : list A) (x : A) : delete (length l) (l ++ [x]) = l.
Proof. rewrite delete_middle. apply app_nil_r. Qed.

(** X17. Selecting one file and then removing the entry it added undoes the
    selection: the image list, the pending files and the form values are
    what they were, and the one preview reference created is released. This
    holds when the controller has one pending file per local preview and the
    browser's reference is a new [blob:] one. *)
Theorem select_then_remove_restores (createObjectURL : File -> string)
    (file : File) (st : FormState) :
  isBlob (createObjectURL file) = true ->
  ~ In (createObjectURL file) (currentImages st) ->
  length (pendingFiles st) = length (localPreviews st) ->
  let selected := handleImageSelect createObjectURL (Some [file]) st in
  let removed := removeImage (Z.of_nat (length (currentImages st))) selected in
  currentImages selected = currentImages st ++ [createObjectURL file]
  /\ pendingFiles selected = pendingFiles st ++ [file]
  /\ currentImages removed = currentImages st
  /\ pendingFiles removed = pendingFiles st
  /\ values removed = values st
  /\ revoked removed = revoked st ++ [createObjectURL file].
Proof.
  intros Hblob Hnew Hlen selected removed.
  set (url := createObjectURL file) in *.
  assert (Hsel : selected
                 = mkForm (set_productImages (currentImages st ++ [url]) (values st))
                          (pendingFiles st ++ [file]) (isUploading st) (revoked st)).
  { reflexivity. }
  assert (Hat : Js.at_index (currentImages selected)
                  (Z.of_nat (length (currentImages st))) = Some url).
  { rewrite Hsel, currentImages_mkForm. apply at_index_Some.
    split; [lia|]. rewrite Nat2Z.id. apply lookup_app_last. }
  assert (Hprev : localPreviews selected = localPreviews st ++ [url]).
  { rewrite Hsel. unfold localPreviews. rewrite currentImages_mkForm.
    rewrite List.filter_app. cbn [List.filter]. rewrite Hblob. reflexivity. }
  assert (Hidx : Js.indexOf url (localPreviews selected)
                 = Z.of_nat (length (pendingFiles st))).
  { rewrite Hprev, Hlen. unfold Js.indexOf. rewrite indexOf_from_first; [lia|].
    intros H. apply Hnew. unfold localPreviews in H. apply filter_In in H. tauto. }
  split; [rewrite Hsel; reflexivity|]. split; [rewrite Hsel; reflexivity|].
  subst removed. rewrite (removeImage_on_preview selected _ url Hat Hblob).
  rewrite Hidx.
  replace (Z.of_nat (length (pendingFiles st)) =? -1) with false
    by (symmetry; apply Z.eqb_neq; lia).
  cbn [negb]. rewrite !without_index_in by lia. rewrite !Nat2Z.id.
  rewrite Hsel. rewrite !currentImages_mkForm.
  cbn [pendingFiles values isUploading revoked].
  rewrite !(delete_app_last (currentImages st)), (delete_app_last (pendingFiles st)).
  split; [reflexivity|]. split; [reflexivity|]. split; [|reflexivity].
  unfold currentImages. destruct (values st). reflexivity.
Qed.

Lemma select_then_remove_restores_witness :
  isBlob blob2 = true
  /\ ~ In blob2 (currentImages selected_once)
  /\ length (pendingFiles selected_once) = length (localPreviews selected_once)
  /\ currentImages
       (removeImage 2 (handleImageSelect (fun _ => blob2) (Some [photo2]) selected_once))
     = [a_jpg; blob1]
  /\ pendingFiles
       (removeImage 2 (handleImageSelect (fun _ => blob2) (Some [photo2]) selected_once))
     = [photo1].
Proof.
  assert (Hnew : ~ In blob2 (currentImages selected_once)).
  { intros [H|[H|[]]]; discriminate. }
  split; [reflexivity|]. split; [exact Hnew|]. split; [reflexivity|].
  pose proof (select_then_remove_restores (fun _ => blob2) photo2 selected_once
                eq_refl Hnew eq_refl) as (_ & _ & Himgs & Hpend & _).
  split; [exact Himgs | exact Hpend].
Defined.

(** * Further properties of the list view *)

Lemma listing_perm rt products s s' :
  searchTerm s' = searchTerm s ->
  filterCategory s' = filterCategory s ->
  listing rt products s' ≡ₚ listing rt products s.
Proof.
  intros Hs Hf. unfold listing. rewrite Hs, Hf.
  destruct products as [products|]; [|reflexivity].
  rewrite !filteredProducts_unfold, !array_sort_perm. reflexivity.
Qed.

Lemma sortKey_eqb_spec (a b : SortKey) : sortKey_eqb a b = true <-> a = b.
Proof. destruct a, b; cbn; split; congruence. Qed.

(** X18. Clicking a sort header makes its key the sort key; it flips the
    direction when that key was already the sort key and keeps the direction
    otherwise, so clicking the same header twice brings the state back. It
    never touches the search term or the tag, and never adds or removes a
    listed product: the listing is rearranged only. *)
Theorem handleSort_only_rearranges rt products (key : SortKey) (s : ListState) :
  sortKey (handleSort key s) = key
  /\ (sortKey s = key ->
      sortAsc (handleSort key s) = negb (sortAsc s)
      /\ handleSort key (handleSort key s) = s)
  /\ (sortKey s <> key -> sortAsc (handleSort key s) = sortAsc s)
  /\ searchTerm (handleSort key s) = searchTerm s
  /\ filterCategory (handleSort key s) = filterCategory s
  /\ listing rt products (handleSort key s) ≡ₚ listing rt products s.
Proof.
  assert (Hs : searchTerm (handleSort key s) = searchTerm s
               /\ filterCategory (handleSort key s) = filterCategory s).
  { unfold handleSort. destruct (sortKey_eqb (sortKey s) key); split; reflexivity. }
  split; [|split; [|split; [|split; [|split]]]]; try tauto.
  - unfold handleSort. destruct (sortKey_eqb (sortKey s) key) eqn:He; [|reflexivity].
    apply sortKey_eqb_spec in He. exact He.
  - intros Hk. unfold handleSort.
    rewrite (proj2 (sortKey_eqb_spec _ _) Hk). cbn [sortKey sortAsc].
    rewrite (proj2 (sortKey_eqb_spec _ _) Hk). cbn.
    split; [reflexivity|]. rewrite negb_involutive. destruct s. reflexivity.
  - intros Hk. unfold handleSort.
    destruct (sortKey_eqb (sortKey s) key) eqn:He; [|reflexivity].
    apply sortKey_eqb_spec in He. contradiction.
  - apply listing_perm; tauto.
Qed.

Lemma handleSort_only_rearranges_witness :
  sortKey initialListState = key_created_at
  /\ sortAsc (handleSort key_created_at initialListState) = true
  /\ handleSort key_created_at (handleSort key_created_at initialListState)
     = initialListState
  /\ sortKey initialListState <> key_id
  /\ sortAsc (handleSort key_id initialListState) = false.
Proof.
  pose proof (handleSort_only_rearranges ascii_runtime (Some catalogue)
                key_created_at initialListState) as (_ & Hsame & _).
  pose proof (handleSort_only_rearranges ascii_runtime (Some catalogue)
                key_id initialListState) as (_ & _ & Hother & _).
  split; [reflexivity|].
  split; [exact (proj1 (Hsame eq_refl))|].
  split; [exact (proj2 (Hsame eq_refl))|].
  split; [discriminate|].
  exact (Hother ltac:(discriminate)).
Defined.

(** X19. The list starts sorted by creation time, newest first. When every
    creation time parses, that listing is in non-increasing order of the
    parsed times, and one click on the creation-time header turns it into
    non-decreasing order, with the same products. *)
Theorem toggle_creation_time_reverses_order rt (products : list Product)
    (s : ListState) :
  sortKey s = key_created_at ->
  sortAsc s = false ->
  (forall p, In p products -> Date_getTime rt (created_at p) <> None) ->
  sortKey initialListState = key_created_at
  /\ sortAsc initialListState = false
  /\ StronglySorted (time_in_order rt false) (listing rt (Some products) s)
  /\ StronglySorted (time_in_order rt true)
       (listing rt (Some products) (handleSort key_created_at s))
  /\ listing rt (Some products) (handleSort key_created_at s)
     ≡ₚ listing rt (Some products) s.
Proof.
  intros Hkey Hasc Hparse. split; [reflexivity|]. split; [reflexivity|].
  assert (Hs' : handleSort key_created_at s
                = mkListState (searchTerm s) (filterCategory s) key_created_at true
                              (productToDelete s) (modalOpen s)).
  { unfold handleSort. rewrite Hkey, Hasc. reflexivity. }
  split; [|split].
  - unfold listing. rewrite Hkey, Hasc.
    apply filteredProducts_sorted_by_time. assumption.
  - rewrite Hs'. unfold listing. cbn [searchTerm filterCategory sortKey sortAsc].
    apply filteredProducts_sorted_by_time. assumption.
  - apply listing_perm; rewrite Hs'; reflexivity.
Qed.

Lemma toggle_creation_time_reverses_order_witness :
  sortKey initialListState = key_created_at
  /\ sortAsc initialListState = false
  /\ (forall p, In p dated_catalogue ->
        Date_getTime ascii_runtime (created_at p) <> None)
  /\ map id (listing ascii_runtime (Some dated_catalogue) initialListState)
     = ["p-3"; "p-1"; "p-2"]
  /\ map id (listing ascii_runtime (Some dated_catalogue)
               (handleSort key_created_at initialListState))
     = ["p-2"; "p-1"; "p-3"]
  /\ StronglySorted (time_in_order ascii_runtime true)
       (listing ascii_runtime (Some dated_catalogue)
          (handleSort key_created_at initialListState)).
Proof.
  assert (Hparse : forall p, In p dated_catalogue ->
                     Date_getTime ascii_runtime (created_at p) <> None).
  { intros p [<-|[<-|[<-|[]]]]; discriminate. }
  pose proof (toggle_creation_time_reverses_order ascii_runtime dated_catalogue
                initialListState eq_refl eq_refl Hparse) as (_ & _ & _ & Hasc & _).
  split; [reflexivity|]. split; [reflexivity|]. split; [exact Hparse|].
  split; [reflexivity|]. split; [reflexivity | exact Hasc].
Defined.

Lemma string_leb_refl (s : string) : String.leb s s = true.
Proof. destruct (String.leb_total s s); assumption. Qed.

Lemma js_lt_irrefl (v : JsVal) : js_lt v v = false.
Proof.
  destruct v as [|[n|]|s]; cbn; try reflexivity.
  - apply Z.ltb_irrefl.
  - unfold Js.ltb. rewrite (string_ltb_leb s s), string_leb_refl. reflexivity.
Qed.

Lemma JsVal_eqb_eq (x y : JsVal) : JsVal_eqb x y = true -> x = y.
Proof.
  destruct x as [|[m|]|s], y as [|[n|]|t]; cbn; try discriminate; try reflexivity.
  - intros H. apply Z.eqb_eq in H. congruence.
  - intros H. apply String.eqb_eq in H. congruence.
Qed.

Lemma compareFn_tie rt sortKey sortAsc a b :
  sort_value rt sortKey a = sort_value rt sortKey b ->
  compareFn rt sortKey sortAsc a b = 0.
Proof.
  intros H. unfold compareFn, js_gt. rewrite H, js_lt_irrefl. reflexivity.
Qed.

(** X20. Sorting by identifier arranges the listed products by identifier
    in the direction asked, for every collection, search term and tag; it
    lists the products the filter keeps, no more and no fewer. *)
Theorem sort_by_id_orders_listing rt (products : list Product)
    (searchTerm filterCategory : string) (sortAsc : bool) :
  let shown :=
    filteredProducts rt (Some products) searchTerm filterCategory key_id sortAsc in
  StronglySorted (id_in_order sortAsc) shown
  /\ shown ≡ₚ List.filter (listed rt searchTerm filterCategory) products
  /\ length shown = length (List.filter (listed rt searchTerm filterCategory) products).
Proof.
  intros shown. subst shown. split; [apply filteredProducts_sorted_by_id|].
  rewrite filteredProducts_unfold.
  split; [apply array_sort_perm|]. rewrite array_sort_perm. reflexivity.
Qed.

(** X21. Ties keep their order. For every sort key and direction (for the
    key [created_at]: when every creation time parses), the listed products
    that the comparator reads the same value from appear in the order the
    collection had them; with the key [created_at] these are the products
    whose creation times parse to the same instant. *)
Theorem sort_keeps_ties_in_order rt (products : list Product)
    (searchTerm filterCategory : string) (sortKey : SortKey) (sortAsc : bool)
    (v : JsVal) :
  (sortKey = key_created_at ->
   forall p, In p products -> Date_getTime rt (created_at p) <> None) ->
  let same := fun p => JsVal_eqb (sort_value rt sortKey p) v in
  List.filter same
    (filteredProducts rt (Some products) searchTerm filterCategory sortKey sortAsc)
  = List.filter same (List.filter (listed rt searchTerm filterCategory) products).
Proof.
  intros _ same. rewrite filteredProducts_unfold. apply array_sort_stable.
  intros x y _ _ Hx Hy. subst same. cbn beta in Hx, Hy.
  apply JsVal_eqb_eq in Hx, Hy.
  rewrite (compareFn_tie rt sortKey sortAsc x y) by congruence. lia.
Qed.

Lemma sort_keeps_ties_in_order_witness :
  (forall p, In p tie_catalogue -> Date_getTime ascii_runtime (created_at p) <> None)
  /\ map id (filteredProducts ascii_runtime (Some tie_catalogue) "" ALL_TAGS
               key_created_at true)
     = ["p-2"; "p-1"; "p-3"]
  /\ List.filter
       (fun p => JsVal_eqb (sort_value ascii_runtime key_created_at p)
                   (JNumber (Some 1704153600000)))
       (filteredProducts ascii_runtime (Some tie_catalogue) "" ALL_TAGS
          key_created_at true)
     = [dated "p-1" "2024-01-02T00:00:00.000Z" cap;
        dated "p-3" "2024-01-02T00:00:00.000Z" hat].
Proof.
  assert (Hparse : forall p, In p tie_catalogue ->
                     Date_getTime ascii_runtime (created_at p) <> None).
  { intros p [<-|[<-|[<-|[]]]]; discriminate. }
  split; [exact Hparse|]. split; [reflexivity|].
  exact (sort_keeps_ties_in_order ascii_runtime tie_catalogue "" ALL_TAGS
           key_created_at true (JNumber (Some 1704153600000)) (fun _ => Hparse)).
Defined.

(** ** The tags offered by the selector *)

Lemma Set_add_In (seen : list string) (x y : string) :
  In y (Set_add seen x) <-> In y seen \/ y = x.
Proof.
  unfold Set_add. destruct (existsb (String.eqb x) seen) eqn:He.
  - apply existsb_exists in He. destruct He as (z & Hz & Heq).
    apply String.eqb_eq in Heq. subst z. split; [auto|]. intros [H| ->]; assumption.
  - rewrite in_app_iff. cbn. split; intros [H|H]; auto.
    + destruct H as [H|[]]. auto.
Qed.

Lemma Set_add_NoDup (seen : list string) (x : string) :
  NoDup seen -> NoDup (Set_add seen x).
Proof.
  intros Hnd. unfold Set_add. destruct (existsb (String.eqb x) seen) eqn:He;
    [assumption|].
  apply NoDup_app. split; [assumption|]. split; [|apply NoDup_singleton].
  intros y Hy Hy'. apply list_elem_of_In in Hy, Hy'. destruct Hy' as [<-|[]].
  assert (Hex : existsb (String.eqb x) seen = true).
  { apply existsb_exists. exists x. split; [assumption | apply String.eqb_refl]. }
  congruence.
Qed.

Lemma Set_fold_spec (values seen : list string) :
  NoDup seen ->
  NoDup (fold_left Set_add values seen)
  /\ forall y, In y (fold_left Set_add values seen) <-> In y seen \/ In y values.
Proof.
  revert seen. induction values as [|x values IH]; intros seen Hnd; cbn [fold_left].
  - split; [assumption|]. intros y. cbn. tauto.
  - destruct (IH (Set_add seen x) (Set_add_NoDup seen x Hnd)) as [Hnd' Hin].
    split; [assumption|]. intros y. rewrite Hin, Set_add_In. cbn. intuition.
Qed.

Lemma listed_with_tag rt (searchTerm : string) (p : Product) :
  trim rt searchTerm = EmptyString ->
  listed rt searchTerm (productTags p) p = true.
Proof.
  intros Hblank. unfold listed, tag_matches. rewrite Hblank, String.eqb_refl.
  cbn. apply orb_true_r.
Qed.

(** X22. The tag selector offers, after its fixed first option, each
    non-empty tag that some product carries, once; nothing when the
    collection is missing. Picking an offered tag (with a blank search term)
    always lists at least one product, and one that carries that tag. *)
Theorem tagOptions_offers_used_tags rt (products : list Product) :
  tagOptions None = []
  /\ NoDup (tagOptions (Some products))
  /\ (forall tag,
        In tag (tagOptions (Some products))
        <-> tag <> EmptyString /\ exists p, In p products /\ productTags p = tag)
  /\ (forall tag searchTerm sortKey sortAsc,
        In tag (tagOptions (Some products)) ->
        trim rt searchTerm = EmptyString ->
        exists p,
          In p (filteredProducts rt (Some products) searchTerm tag sortKey sortAsc)
          /\ productTags p = tag).
Proof.
  assert (Hin : forall tag,
             In tag (tagOptions (Some products))
             <-> tag <> EmptyString /\ exists p, In p products /\ productTags p = tag).
  { intros tag. unfold tagOptions, Set_from.
    rewrite (proj2 (Set_fold_spec _ [] (NoDup_nil_2 (A:=string)))). cbn [In].
    rewrite filter_In, in_map_iff, truthy_spec. split.
    - intros [[]|[(p & Hp & Hin) Hne]]. split; [assumption|]. exists p. auto.
    - intros [Hne (p & Hin & Hp)]. right. split; [|assumption]. exists p. auto. }
  split; [reflexivity|]. split; [|split; [exact Hin|]].
  - unfold tagOptions, Set_from. apply Set_fold_spec. apply NoDup_nil_2.
  - intros tag searchTerm sortKey sortAsc Htag Hblank.
    apply Hin in Htag. destruct Htag as [_ (p & Hp & Hptag)].
    exists p. split; [|assumption]. rewrite filteredProducts_unfold.
    rewrite <- list_elem_of_In. rewrite array_sort_perm. rewrite list_elem_of_In.
    apply filter_In. split; [assumption|]. subst tag.
    apply listed_with_tag. assumption.
Qed.

Lemma tagOptions_offers_used_tags_witness :
  tagOptions (Some catalogue) = ["Headwear"; "Apparel"]
  /\ In "Apparel" (tagOptions (Some catalogue))
  /\ trim ascii_runtime "  " = EmptyString
  /\ exists p,
      In p (filteredProducts ascii_runtime (Some catalogue) "  " "Apparel"
              key_id true)
      /\ productTags p = "Apparel".
Proof.
  assert (Hin : In "Apparel" (tagOptions (Some catalogue)))
    by (right; left; reflexivity).
  split; [reflexivity|]. split; [exact Hin|]. split; [reflexivity|].
  pose proof (tagOptions_offers_used_tags ascii_runtime catalogue)
    as (_ & _ & _ & H).
  exact (H "Apparel" "  " key_id true Hin eq_refl).
Defined.

(** ** Deleting from the list *)

Lemma deleteProduct_repo_events productId db :
  Forall repo_event (events (deleteProduct productId) db).
Proof.
  unfold events. rewrite deleteProduct_run. cbv zeta.
  destruct (on_products_select_images db productId) as [product|];
    [|repeat constructor].
  destruct (on_products_delete db productId); [repeat constructor|].
  cbn [snd]. repeat constructor.
  destruct (is_empty (images_of product)); [constructor|].
  constructor; [exact I|].
  destruct (is_empty (filePaths_of (images_of product))); [constructor|].
  constructor; [exact I|].
  destruct (on_storage_remove db _); repeat constructor.
Qed.

(** X23. Deleting from the list takes two steps. Choosing a product
    remembers it and opens the dialog and touches nothing else: search term,
    tag, sort key and direction stay as they are, and so does the listing.
    Confirming with nothing chosen does nothing. Confirming a chosen product
    runs [deleteProduct] for its identifier and never throws: the effects of
    the handler are those of [deleteProduct], followed on success by the
    invalidation of the cached list and the success toast, and on failure by
    one error toast carrying the message of the store's error. On success
    the dialog closes; on failure it stays open and nothing is invalidated.
    Either way the product stays chosen and the listing is as before.
    (The requests the query client sends to refetch an invalidated list are
    its own, not the handler's, and are not among these effects.) *)
Theorem confirm_deletes_the_chosen_product (id name : string) (s : ListState) db :
  let chosen := handleDeleteClick id name s in
  (productToDelete s = None -> handleConfirmDelete s db = (s, []))
  /\ productToDelete chosen = Some (id, name)
  /\ modalOpen chosen = true
  /\ (searchTerm chosen = searchTerm s
      /\ filterCategory chosen = filterCategory s
      /\ sortKey chosen = sortKey s
      /\ sortAsc chosen = sortAsc s)
  /\ (forall rt products,
        listing rt products chosen = listing rt products s
        /\ listing rt products (fst (handleConfirmDelete chosen db))
           = listing rt products s)
  /\ productToDelete (fst (handleConfirmDelete chosen db)) = Some (id, name)
  /\ (forall result,
        outcome (deleteProduct id) db = Returned result ->
        modalOpen (fst (handleConfirmDelete chosen db)) = false
        /\ snd (handleConfirmDelete chosen db)
           = events (deleteProduct id) db
             ++ [InvalidateQueries ["products"]; ToastSuccess "商品刪除成功！"])
  /\ (forall error,
        outcome (deleteProduct id) db = Thrown error ->
        fst (handleConfirmDelete chosen db) = chosen
        /\ (forall queryKey,
              ~ In (InvalidateQueries queryKey) (snd (handleConfirmDelete chosen db)))
        /\ exists e,
            (on_products_select_images db id = Failure e
             \/ on_products_delete db id = Some e)
            /\ snd (handleConfirmDelete chosen db)
               = events (deleteProduct id) db
                 ++ [ToastError ("刪除失敗：" +:+ pg_message e)]).
Proof.
  intros chosen.
  split; [intros H; unfold handleConfirmDelete; rewrite H; reflexivity|].
  split; [reflexivity|]. split; [reflexivity|].
  split; [repeat split|].
  pose proof (deleteProduct_repo_events id db) as Hrepo.
  pose proof (deleteProduct_outcome db id) as Hout.
  subst chosen. unfold handleConfirmDelete, events, outcome in *.
  cbn [productToDelete handleDeleteClick].
  destruct (deleteProduct id db) as [[result|error] t]; cbn [fst snd] in *.
  - split; [intros rt products; split; reflexivity|].
    split; [reflexivity|].
    split; [|discriminate].
    intros _ _. split; reflexivity.
  - split; [intros rt products; split; reflexivity|].
    split; [reflexivity|].
    split; [discriminate|].
    intros error' H. inversion H. subst error'. split; [reflexivity|]. split.
    + intros queryKey Hin. apply in_app_or in Hin. destruct Hin as [Hin|[Hin|[]]].
      * apply (repo_event_In _ _ Hrepo) in Hin. exact Hin.
      * discriminate.
    + destruct (on_products_select_images db id) as [product|e].
      * destruct (on_products_delete db id) as [e|]; [|discriminate].
        exists e. split; [auto|]. inversion Hout. reflexivity.
      * exists e. split; [auto|]. inversion Hout. reflexivity.
Qed.

Lemma confirm_deletes_the_chosen_product_witness :
  productToDelete initialListState = None
  /\ handleConfirmDelete initialListState empty_store = (initialListState, [])
  /\ outcome (deleteProduct "p-1")
       (with_products_delete (fun _ => Some denied) store_failing_removal)
     = Thrown (ErrorExn "permission denied for table")
  /\ fst (handleConfirmDelete (handleDeleteClick "p-1" "Hat" initialListState)
            (with_products_delete (fun _ => Some denied) store_failing_removal))
     = handleDeleteClick "p-1" "Hat" initialListState
  /\ modalOpen
       (fst (handleConfirmDelete (handleDeleteClick "p-1" "Hat" initialListState)
               store_failing_removal))
     = false.
Proof.
  pose proof (confirm_deletes_the_chosen_product "p-1" "Hat" initialListState
                empty_store) as (Hnone & _).
  pose proof (confirm_deletes_the_chosen_product "p-1" "Hat" initialListState
                (with_products_delete (fun _ => Some denied) store_failing_removal))
    as (_ & _ & _ & _ & _ & _ & _ & Hfail).
  pose proof (confirm_deletes_the_chosen_product "p-1" "Hat" initialListState
                store_failing_removal) as (_ & _ & _ & _ & _ & _ & Hok & _).
  split; [reflexivity|]. split; [exact (Hnone eq_refl)|]. split; [reflexivity|].
  split; [exact (proj1 (Hfail _ eq_refl)) | exact (proj1 (Hok _ eq_refl))].
Defined.

(** * Further properties of the image handlers *)

(** X24. Selecting no file (a null or an empty file list) changes nothing.
    Selecting files appends them to the pending files and appends one
    preview reference per file to the image list, in the order of the files;
    what was there before stays in place, and no other form field
    changes. *)
Theorem handleImageSelect_appends (createObjectURL : File -> string)
    (files : option (list File)) (st : FormState) :
  (files = None \/ files = Some [] ->
   handleImageSelect createObjectURL files st = st)
  /\ (forall newFiles,
        files = Some newFiles ->
        let st' := handleImageSelect createObjectURL files st in
        currentImages st' = currentImages st ++ map createObjectURL newFiles
        /\ pendingFiles st' = pendingFiles st ++ newFiles
        /\ (length (currentImages st') - length (currentImages st)
            = length newFiles)%nat
        /\ (forall i img, currentImages st !! i = Some img ->
                          currentImages st' !! i = Some img)
        /\ rest_without_variants (set_productImages [] (values st'))
           = rest_without_variants (set_productImages [] (values st))
        /\ variants (values st') = variants (values st)
        /\ revoked st' = revoked st).
Proof.
  split.
  - intros [-> | ->]; reflexivity.
  - intros newFiles ->. cbv zeta. destruct newFiles as [|f fs].
    + cbn [handleImageSelect is_empty map]. rewrite !app_nil_r, Nat.sub_diag.
      repeat split; auto.
    + set (newFiles := f :: fs).
      assert (Hst : handleImageSelect createObjectURL (Some newFiles) st
                    = mkForm (set_productImages
                                (currentImages st ++ map createObjectURL newFiles)
                                (values st))
                             (pendingFiles st ++ newFiles) (isUploading st)
                             (revoked st)) by reflexivity.
      rewrite Hst, currentImages_mkForm. cbn [pendingFiles values revoked].
      split; [reflexivity|]. split; [reflexivity|]. split.
      * rewrite length_app, length_map. lia.
      * split; [|repeat split].
        intros i img Hi. rewrite lookup_app_l; [assumption|].
        apply lookup_lt_Some in Hi. assumption.
Qed.

Lemma handleImageSelect_appends_witness :
  handleImageSelect (fun _ => blob1) (Some []) editing = editing
  /\ currentImages (handleImageSelect (fun _ => blob2) (Some [photo2]) selected_once)
     = [a_jpg; blob1; blob2]
  /\ pendingFiles (handleImageSelect (fun _ => blob2) (Some [photo2]) selected_once)
     = [photo1; photo2].
Proof.
  pose proof (handleImageSelect_appends (fun _ => blob1) (Some []) editing)
    as (Hnone & _).
  pose proof (handleImageSelect_appends (fun _ => blob2) (Some [photo2]) selected_once)
    as (_ & Hsome).
  destruct (Hsome [photo2] eq_refl) as (Himgs & Hpend & _).
  split; [exact (Hnone (or_intror eq_refl))|].
  split; [exact Himgs | exact Hpend].
Defined.

(** X25. [removeImage] releases a preview reference exactly when the entry
    it removes is a local preview, and then that reference and no other; for
    a persisted URL or an index outside the list nothing is released. It
    changes no form field but the image list, and never lengthens the image
    list or the pending files. *)
Theorem removeImage_releases_only_removed_previews (index : Z) (st : FormState) :
  let st' := removeImage index st in
  revoked st'
  = revoked st
    ++ match Js.at_index (currentImages st) index with
       | Some img => if isBlob img then [img] else []
       | None => []
       end
  /\ rest_without_variants (set_productImages [] (values st'))
     = rest_without_variants (set_productImages [] (values st))
  /\ variants (values st') = variants (values st)
  /\ isUploading st' = isUploading st
  /\ (length (currentImages st') <= length (currentImages st))%nat
  /\ (length (pendingFiles st') <= length (pendingFiles st))%nat.
Proof.
  intros st'. subst st'.
  assert (Hle : forall {A} (i : Z) (l : list A),
             (length (without_index i l) <= length l)%nat).
  { intros A i l. destruct (Z.ltb_spec i 0).
    - rewrite without_index_out by lia. lia.
    - rewrite without_index_in by lia.
      destruct (le_lt_dec (length l) (Z.to_nat i)).
      + rewrite delete_out by assumption. lia.
      + rewrite length_delete by (apply lookup_lt_is_Some; assumption). lia. }
  destruct (Js.at_index (currentImages st) index) as [img|] eqn:Hat.
  - destruct (isBlob img) eqn:Hblob.
    + rewrite (removeImage_on_preview st index img Hat Hblob).
      rewrite currentImages_mkForm. cbn [revoked values pendingFiles isUploading].
      split; [reflexivity|]. split; [reflexivity|]. split; [reflexivity|].
      split; [reflexivity|]. split; [apply Hle|].
      destruct (negb _); [apply Hle | lia].
    + rewrite (removeImage_on_persisted st index img Hat Hblob).
      unfold setValue_productImages. rewrite currentImages_mkForm.
      cbn [revoked values pendingFiles isUploading]. rewrite app_nil_r.
      split; [reflexivity|]. split; [reflexivity|]. split; [reflexivity|].
      split; [reflexivity|]. split; [apply Hle | lia].
  - apply at_index_None in Hat. rewrite (removeImage_outside index st Hat).
    rewrite app_nil_r. repeat split; lia.
Qed.
